(** * upsf-shard-manager: the shard mapper and the default-item materializer

    A shallow embedding of [upsf_shard_manager/app.py]: the reconciliation
    sweep [ShardManager.map_shards], the policy lookup
    [ShardManager.get_static_shard_to_sgup_mapping] and the policy-driven
    shard creation [ShardManager.create_default_items], followed by the
    properties of the specification that concern them.

    Conventions of the embedding.
    - A Python [str] is a [string]; a character code above 127 stands for a
      non-ASCII code point, so that [str.encode("ascii")] is a partial map.
    - A Python [set] of names is held as the duplicate-free list of its
      names in order of first insertion. The order in which the set is
      iterated is another matter: it is that of the hash table, a
      permutation of the names that a class [SetOrder] gives as a parameter.
    - A Python [dict] is an association list: assigning to a key that is
      present overwrites its value in place, a new key goes to the end.
    - Calls on the store ([update_shard], [create_shard]) and the warnings
      logged are collected in a trace of events; the store is a record that
      the list and get calls read. Debug, info and error records of the log
      are left out, but for the "add entry" record that ties a created shard
      to its policy entry.

    The file has the embedding first, then the notions and the sample items
    that the statements use, then the statements with their proofs. *)

From Stdlib Require Import List String Ascii Bool ZArith QArith Qabs Lia Lqa Permutation.
Import ListNotations.
Open Scope string_scope.
Open Scope list_scope.
Open Scope Z_scope.

(** ** Strings *)

Definition str_in (s : string) (l : list string) : bool :=
  existsb (String.eqb s) l.

(** [sep.join(l)] *)
Definition join (sep : string) (l : list string) : string :=
  String.concat sep l.

Definition byte_of (c : ascii) : Z := Z.of_N (N_of_ascii c).

Definition is_ascii (s : string) : bool :=
  forallb (fun c => byte_of c <? 128) (list_ascii_of_string s).

(** [s.encode("ascii")]: the bytes of [s], or [None] for UnicodeEncodeError. *)
Definition encode_ascii (s : string) : option (list Z) :=
  if is_ascii s then Some (map byte_of (list_ascii_of_string s)) else None.

(** ** hashlib.sha256 (FIPS 180-4) on 32-bit words held in [Z] *)

Module SHA256.

Definition w32 (x : Z) : Z := x mod 2 ^ 32.
Definition add32 (x y : Z) : Z := w32 (x + y).
Definition not32 (x : Z) : Z := Z.lxor x 0xffffffff.
Definition rotr (n x : Z) : Z :=
  Z.lor (Z.shiftr x n) (w32 (Z.shiftl x (32 - n))).

Definition Ch (x y z : Z) : Z := Z.lxor (Z.land x y) (Z.land (not32 x) z).
Definition Maj (x y z : Z) : Z :=
  Z.lxor (Z.lxor (Z.land x y) (Z.land x z)) (Z.land y z).
Definition Sigma0 (x : Z) : Z := Z.lxor (Z.lxor (rotr 2 x) (rotr 13 x)) (rotr 22 x).
Definition Sigma1 (x : Z) : Z := Z.lxor (Z.lxor (rotr 6 x) (rotr 11 x)) (rotr 25 x).
Definition sigma0 (x : Z) : Z := Z.lxor (Z.lxor (rotr 7 x) (rotr 18 x)) (Z.shiftr x 3).
Definition sigma1 (x : Z) : Z := Z.lxor (Z.lxor (rotr 17 x) (rotr 19 x)) (Z.shiftr x 10).

(** The constants are defined as the standard defines them: the first 32
    bits of the fractional parts of the cube roots (round constants) and of
    the square roots (initial hash value) of the first primes. *)
Definition is_prime (n : Z) : bool :=
  forallb (fun d => negb (n mod Z.of_nat d =? 0)) (seq 2 (Z.to_nat n - 2)).

Definition primes : list Z :=
  Eval vm_compute in firstn 64 (filter is_prime (map Z.of_nat (seq 2 400))).

(** The largest [r] below [2 ^ bits] with [pow r <= n], bit by bit. *)
Fixpoint root_scan (pow : Z -> Z) (n : Z) (bits : nat) (r : Z) : Z :=
  match bits with
  | O => r
  | S b =>
      let c := r + 2 ^ Z.of_nat b in
      root_scan pow n b (if pow c <=? n then c else r)
  end.

Definition K : list Z :=
  Eval vm_compute in
    map (fun p => w32 (root_scan (fun c => c * c * c) (p * 2 ^ 96) 40 0)) primes.

Definition H0 : list Z :=
  Eval vm_compute in
    map (fun p => w32 (root_scan (fun c => c * c) (p * 2 ^ 64) 40 0)) (firstn 8 primes).

(** Big-endian bytes of [x], [n] of them. *)
Fixpoint be_bytes (n : nat) (x : Z) : list Z :=
  match n with
  | O => []
  | S k => (Z.shiftr x (8 * Z.of_nat k)) mod 256 :: be_bytes k x
  end.

(** The message, a 1 bit, zeros up to 56 modulo 64, and the bit length. *)
Definition pad (msg : list Z) : list Z :=
  let len := Z.of_nat (List.length msg) in
  let zeros := Z.to_nat ((55 - len) mod 64) in
  msg ++ 0x80 :: repeat 0 zeros ++ be_bytes 8 (8 * len).

Fixpoint words (fuel : nat) (bs : list Z) : list Z :=
  match fuel, bs with
  | S f, b0 :: b1 :: b2 :: b3 :: rest =>
      (b0 * 2 ^ 24 + b1 * 2 ^ 16 + b2 * 2 ^ 8 + b3) :: words f rest
  | _, _ => []
  end.

Fixpoint blocks (fuel : nat) (ws : list Z) : list (list Z) :=
  match fuel, ws with
  | S f, _ :: _ => firstn 16 ws :: blocks f (skipn 16 ws)
  | _, _ => []
  end.

(** The message schedule: [w] holds W_0 .. W_{t-1}; [n] words are added. *)
Fixpoint schedule (n : nat) (w : list Z) : list Z :=
  match n with
  | O => w
  | S k =>
      let t := List.length w in
      let at_ (i : nat) := nth (t - i) w 0 in
      schedule k
        (w ++ [add32 (add32 (sigma1 (at_ 2%nat)) (at_ 7%nat))
                     (add32 (sigma0 (at_ 15%nat)) (at_ 16%nat))])
  end.

Definition round (s : list Z) (kw : Z * Z) : list Z :=
  match s with
  | [a; b; c; d; e; f; g; h] =>
      let t1 := add32 (add32 (add32 h (Sigma1 e)) (add32 (Ch e f g) (fst kw))) (snd kw) in
      let t2 := add32 (Sigma0 a) (Maj a b c) in
      [add32 t1 t2; a; b; c; add32 d t1; e; f; g]
  | _ => s
  end.

Definition compress (h : list Z) (block : list Z) : list Z :=
  let s := fold_left round (combine K (schedule 48 block)) h in
  map (fun p => add32 (fst p) (snd p)) (combine h s).

Definition digest (msg : list Z) : list Z :=
  let bs := pad msg in
  let ws := words (List.length bs) bs in
  fold_left compress (blocks (List.length ws) ws) H0.

Definition hex_digit (d : Z) : ascii :=
  ascii_of_N (Z.to_N (if d <? 10 then 48 + d else 87 + d)).

Fixpoint hex (n : nat) (x : Z) : string :=
  match n with
  | O => EmptyString
  | S k => String (hex_digit ((Z.shiftr x (4 * Z.of_nat k)) mod 16)) (hex k x)
  end.

(** [hashlib.sha256(msg).hexdigest()] *)
Definition hexdigest (msg : list Z) : string :=
  String.concat "" (map (hex 8) (digest msg)).

End SHA256.

(** ** Python containers *)

(** [s.add(x)] on a set of names. *)
Definition set_add (x : string) (s : list string) : list string :=
  if str_in x s then s else s ++ [x].

(** [",".join(s)] and [list(s)] iterate over the set. CPython visits the
    names in the order of the slots of the hash table, which the hashes of
    the strings (seeded anew in every process) and the sequence of the
    insertions fix; the program only adds to its set. Within one process the
    order is therefore a function of the names in order of first insertion,
    and it permutes them: that function is the parameter [iterate]. *)
Class SetOrder := {
  iterate : list string -> list string;
  iterate_permutes : forall s : list string, Permutation (iterate s) s
}.

(** [d[k] = v] *)
Fixpoint dict_set {V : Type} (k : string) (v : V) (d : list (string * V))
  : list (string * V) :=
  match d with
  | [] => [(k, v)]
  | (k', v') :: r =>
      if String.eqb k' k then (k', v) :: r else (k', v') :: dict_set k v r
  end.

(** [d.get(k)] *)
Fixpoint dict_get {V : Type} (k : string) (d : list (string * V)) : option V :=
  match d with
  | [] => None
  | (k', v') :: r => if String.eqb k' k then Some v' else dict_get k r
  end.

Definition dict_keys {V : Type} (d : list (string * V)) : list string :=
  map fst d.

(** ** Data model: the items of the store that the program reads *)

Record Endpoint := mkEndpoint { endpoint_name : string }.

Record ServiceGateway := mkSG { sg_name : string }.

Record ServiceGatewayUserPlane := mkSGUP {
  sgup_name : string;
  sgup_service_gateway_name : string;
  sgup_max_session_count : Z;
  sgup_default_endpoint : Endpoint;
  sgup_supported_service_group : list string;
  sgup_allocated_session_count : Z
}.

Record TrafficSteeringFunction := mkTSF {
  tsf_name : string;
  tsf_default_endpoint : Endpoint
}.

Record SsPtpSpec := mkSsPtp {
  ss_ptp_tsf_endpoint : Endpoint;
  ss_ptp_sgup_endpoint : list Endpoint
}.

Record SsMptpSpec := mkSsMptp {
  ss_mptp_tsf_endpoint : list Endpoint;
  ss_mptp_sgup_endpoint : list Endpoint
}.

Record MsPtpSpec := mkMsPtp {
  ms_ptp_tsf_endpoint : Endpoint;
  ms_ptp_sgup_endpoint : Endpoint
}.

Record MsMptpSpec := mkMsMptp {
  ms_mptp_tsf_endpoint : list Endpoint;
  ms_mptp_sgup_endpoint : Endpoint
}.

(** A network connection as the program reads it: the tag that
    [spec.WhichOneof("nc_spec")] returns, and the four members of the
    one-of (a member that is not set reads as its default value). *)
Record NetworkConnection := mkNC {
  nc_name : string;
  nc_spec_type : option string;
  nc_ss_ptp : SsPtpSpec;
  nc_ss_mptp : SsMptpSpec;
  nc_ms_ptp : MsPtpSpec;
  nc_ms_mptp : MsMptpSpec
}.

Definition no_endpoint : Endpoint := mkEndpoint "".
Definition no_ss_ptp : SsPtpSpec := mkSsPtp no_endpoint [].
Definition no_ss_mptp : SsMptpSpec := mkSsMptp [] [].
Definition no_ms_ptp : MsPtpSpec := mkMsPtp no_endpoint no_endpoint.
Definition no_ms_mptp : MsMptpSpec := mkMsMptp [] no_endpoint.

Record Shard := mkShard {
  shard_name : string;
  shard_prefix : list string;
  shard_desired_sgup : string;
  shard_desired_nc : list string;
  shard_current_tsf_nc : list (string * string);
  shard_service_groups_supported : list string;
  shard_max_session_count : Z;
  shard_allocated_session_count : Z;
  shard_virtual_mac : string
}.

Record Store := mkStore {
  service_gateways : list ServiceGateway;
  service_gateway_user_planes : list ServiceGatewayUserPlane;
  shards : list Shard;
  traffic_steering_functions : list TrafficSteeringFunction;
  network_connections : list NetworkConnection
}.

(** The keyword arguments of [update_shard]; [None] is a key that the
    caller does not pass. *)
Record UpdateParams := mkUpdate {
  u_name : string;
  u_desired_service_gateway_user_plane : option string;
  u_desired_network_connection : option (list string);
  u_current_tsf_network_connection : option (list (string * string));
  u_service_groups_supported : option (list string);
  u_prefix : option (list string);
  u_list_merge_strategy : option string
}.

(** The keyword arguments of [create_shard]. *)
Record CreateParams := mkCreate {
  c_name : string;
  c_virtual_mac : string;
  c_allocated_session_count : Z;
  c_max_session_count : Z;
  c_prefix : list string;
  c_desired_service_gateway_user_plane : option string
}.

(** ** The policy file *)

(** An entry of [upsf.shards]; [None] is a key that is absent. The value of
    [serviceGatewayUserPlane] may be null, which is the inner [None]. *)
Record Entry := mkEntry {
  e_name : option string;
  e_prefixes : option (list string);
  e_exclude : option (list string);
  e_serviceGatewayUserPlane : option (option string)
}.

Inductive ConfigFile :=
| NoFile                              (* the path does not exist *)
| EmptyFile                           (* yaml.load returns None *)
| Config (upsf_shards : list Entry).  (* config.get("upsf", {}).get("shards", []) *)

(** ** Effects: warnings and store writes, in program order *)

Inductive Warning :=
| NoUserPlanesAvailable
| StaticSgupNotAvailable (shard sgup : string)
| SgupCandidatesEmpty (shard : string)
| StaticParamNotFound (param : string) (entry : Entry)
| NoSgupsAvailable
| ParamNotFound (param : string) (entry : Entry)
| InvalidPrefix (prefix : string) (entry : Entry)
| DesiredSgupNotAvailable (shard sgup : string).

Inductive Event :=
| EvWarning (w : Warning)
| EvUpdateShard (p : UpdateParams)
| EvAddEntry (entry : Entry) (p : CreateParams)
| EvCreateShard (p : CreateParams).

Definition update_of (e : Event) : option UpdateParams :=
  match e with EvUpdateShard p => Some p | _ => None end.

Definition warning_of (e : Event) : option Warning :=
  match e with EvWarning w => Some w | _ => None end.

Fixpoint filter_map {A B : Type} (f : A -> option B) (l : list A) : list B :=
  match l with
  | [] => []
  | x :: r =>
      match f x with
      | Some y => y :: filter_map f r
      | None => filter_map f r
      end
  end.

(** The [update_shard] calls of a trace, and the warnings of a trace. *)
Definition updates (t : list Event) : list UpdateParams := filter_map update_of t.
Definition warnings (t : list Event) : list Warning := filter_map warning_of t.

(** ** get_static_shard_to_sgup_mapping *)

Fixpoint static_scan (entries : list Entry) (shard_name : string)
  : list Event * option string :=
  match entries with
  | [] => ([], None)
  | entry :: rest =>
      match e_name entry with
      | None =>
          let (ws, r) := static_scan rest shard_name in
          (EvWarning (StaticParamNotFound "name" entry) :: ws, r)
      | Some name =>
          match e_serviceGatewayUserPlane entry with
          | None =>
              let (ws, r) := static_scan rest shard_name in
              (EvWarning (StaticParamNotFound "serviceGatewayUserPlane" entry) :: ws, r)
          | Some value =>
              if negb (String.eqb name shard_name)
              then static_scan rest shard_name
              else ([], value)
          end
      end
  end.

Definition get_static_shard_to_sgup_mapping (config_file : ConfigFile)
  (shard_name : string) : list Event * option string :=
  match config_file with
  | NoFile => ([], None)
  | EmptyFile => ([], None)
  | Config entries => static_scan entries shard_name
  end.

(** ** Load of a user plane: [allocated_session_count / max_session_count]

    Python's [/] on two integers is the quotient rounded to the nearest
    double, ties to even. The quotient is kept here as the rational that the
    double denotes. Session counts are protocol-buffer integers, so the
    exponent range of a double is never left and only the rounding to 53
    significant bits is modelled. The divisor is positive at the one place
    the program divides. *)

Definition round_half_even (n d : Z) : Z :=
  let q := n / d in
  let r := n mod d in
  if 2 * r <? d then q
  else if d <? 2 * r then q + 1
  else if Z.even q then q else q + 1.

Definition true_div (a b : Z) : Q :=
  if a =? 0 then 0%Q
  else
    let m := Z.abs a in
    let e0 := Z.log2 m - Z.log2 b in
    let e := if m * 2 ^ Z.max 0 (- e0) <? b * 2 ^ Z.max 0 e0 then e0 - 1 else e0 in
    let sh := e - 52 in
    if 0 <=? sh
    then Qmake (Z.sgn a * round_half_even m (b * 2 ^ sh) * 2 ^ sh) 1
    else Qmake (Z.sgn a * round_half_even (m * 2 ^ (- sh)) b) (Z.to_pos (2 ^ (- sh))).

(** [x < y] on loads. *)
Definition Qltb (x y : Q) : bool := negb (Qle_bool y x).

(** ** map_shards: selection of the user plane *)

Definition eligible (sg_names : list string) (sgup : ServiceGatewayUserPlane) : bool :=
  (0 <? sgup_max_session_count sgup)
  && str_in (sgup_service_gateway_name sgup) sg_names.

Definition load (sgup : ServiceGatewayUserPlane) : Q :=
  true_div (sgup_allocated_session_count sgup) (sgup_max_session_count sgup).

(** The dict comprehension [{sgup.name: load for sgup in sgups if ...}]. *)
Definition sgup_load_of (sg_names : list string)
  (sgups : list ServiceGatewayUserPlane) : list (string * Q) :=
  fold_left
    (fun d sgup => if eligible sg_names sgup then dict_set (sgup_name sgup) (load sgup) d else d)
    sgups [].

(** [sgup_load.get] on a key of the dict. *)
Definition load_get (d : list (string * Q)) (k : string) : Q :=
  match dict_get k d with Some q => q | None => 0%Q end.

(** The scan of [min(iterable, key=...)]: a later item replaces the best
    one only when its key is strictly smaller. *)
Fixpoint min_scan (key : string -> Q) (best : string) (rest : list string) : string :=
  match rest with
  | [] => best
  | k :: r => if Qltb (key k) (key best) then min_scan key k r else min_scan key best r
  end.

(** [min(sgup_load, key=sgup_load.get)]; [None] stands for the empty dict,
    which the program excludes before the call. *)
Definition least_loaded (d : list (string * Q)) : option string :=
  match dict_keys d with
  | [] => None
  | k :: r => Some (min_scan (load_get d) k r)
  end.

Inductive Selection :=
| Selected (up_name : string)   (* go on with this user plane *)
| SkipShard                     (* continue *)
| ReturnFromSweep.              (* return *)

Definition need_mapping (static_up_name : option string) (up_name : string)
  (up_names : list string) : bool :=
  match static_up_name with
  | Some s => negb (String.eqb up_name s)
  | None => false
  end || negb (str_in up_name up_names).

Definition select_sgup (sgups : list ServiceGatewayUserPlane)
  (sg_names up_names : list string) (shard : Shard)
  (static_up_name : option string) : list Event * Selection :=
  let up_name := shard_desired_sgup shard in
  if need_mapping static_up_name up_name up_names then
    match static_up_name with
    | Some s =>
        if negb (str_in s up_names)
        then ([EvWarning (StaticSgupNotAvailable (shard_name shard) s)], ReturnFromSweep)
        else ([], Selected s)
    | None =>
        let sgup_load := sgup_load_of sg_names sgups in
        match least_loaded sgup_load with
        | None => ([EvWarning (SgupCandidatesEmpty (shard_name shard))], SkipShard)
        | Some name => ([], Selected name)
        end
    end
  else ([], Selected up_name).

(** ** map_shards: matching of network connections *)

(** The desired set of network-connection names and the dict tsf -> nc. *)
Definition Matching : Type := list string * list (string * string).

Definition record_match (tsf : TrafficSteeringFunction) (nc : NetworkConnection)
  (acc : Matching) : Matching :=
  (set_add (nc_name nc) (fst acc), dict_set (tsf_name tsf) (nc_name nc) (snd acc)).

(** [nc_spec_type in (a, b)] *)
Definition tag_in (tag : option string) (l : list string) : bool :=
  match tag with
  | Some s => str_in s l
  | None => false
  end.

Definition match_pair (up_ep_name : string) (tsf : TrafficSteeringFunction)
  (nc : NetworkConnection) (up_ep tsf_ep : Endpoint) (acc : Matching) : Matching :=
  if String.eqb up_ep_name (endpoint_name up_ep)
     && String.eqb (endpoint_name (tsf_default_endpoint tsf)) (endpoint_name tsf_ep)
  then record_match tsf nc acc
  else acc.

Definition match_network_connection (up_ep_name : string)
  (tsf : TrafficSteeringFunction) (acc : Matching) (nc : NetworkConnection) : Matching :=
  let hit := match_pair up_ep_name tsf nc in
  if tag_in (nc_spec_type nc) ["SsPtpSpec"; "ss_ptp"] then
    let tsf_ep := ss_ptp_tsf_endpoint (nc_ss_ptp nc) in
    fold_left (fun acc up_ep => hit up_ep tsf_ep acc)
      (ss_ptp_sgup_endpoint (nc_ss_ptp nc)) acc
  else if tag_in (nc_spec_type nc) ["SsMptpSpec"; "ss_mptpc"] then
    fold_left
      (fun acc up_ep =>
         fold_left (fun acc tsf_ep => hit up_ep tsf_ep acc)
           (ss_mptp_tsf_endpoint (nc_ss_mptp nc)) acc)
      (ss_mptp_sgup_endpoint (nc_ss_mptp nc)) acc
  else if tag_in (nc_spec_type nc) ["MsPtpSpec"; "ms_ptp"] then
    hit (ms_ptp_sgup_endpoint (nc_ms_ptp nc)) (ms_ptp_tsf_endpoint (nc_ms_ptp nc)) acc
  else if tag_in (nc_spec_type nc) ["MsMptpSpec"; "ms_mptp"] then
    let up_ep := ms_mptp_sgup_endpoint (nc_ms_mptp nc) in
    fold_left (fun acc tsf_ep => hit up_ep tsf_ep acc)
      (ms_mptp_tsf_endpoint (nc_ms_mptp nc)) acc
  else acc.

(** The two nested loops [for tsf in tsfs: for network_connection in ncs]. *)
Definition match_network_connections (up_ep_name : string)
  (tsfs : list TrafficSteeringFunction) (ncs : list NetworkConnection) : Matching :=
  fold_left
    (fun acc tsf => fold_left (match_network_connection up_ep_name tsf) ncs acc)
    tsfs ([], []).

(** ** map_shards: one shard, and the sweep *)

(** [up + "/" + ",".join(ncs)] *)
Definition finger (up_name : string) (ncs : list string) : string :=
  (up_name ++ "/" ++ join "," ncs)%string.

(** [hashlib.sha256(s.encode("ascii")).hexdigest()] *)
Definition fingerprint (s : string) : option string :=
  option_map SHA256.hexdigest (encode_ascii s).

Inductive Exception :=
| UnicodeEncodeError   (* not caught in map_shards: it leaves the function *)
| UpsfError            (* caught by the outer handler, which logs it *)
| AttributeError.      (* [None.get] in create_default_items, not caught *)

(** How the body of the shard loop is left. *)
Inductive Flow :=
| Next
| Return
| Raise (e : Exception).

(** [self._upsf.get_service_gateway_user_plane(name=...)] *)
Definition get_service_gateway_user_plane (st : Store) (name : string)
  : option ServiceGatewayUserPlane :=
  find (fun sgup => String.eqb (sgup_name sgup) name) (service_gateway_user_planes st).

(** The [service_groups_supported] comprehension. *)
Definition supported_groups (sgup : ServiceGatewayUserPlane) : list string :=
  filter (fun g => negb (String.eqb g "")) (sgup_supported_service_group sgup).

Definition update_params {order : SetOrder} (shard : Shard)
  (sgup : ServiceGatewayUserPlane) (m : Matching) : UpdateParams :=
  {| u_name := shard_name shard;
     u_desired_service_gateway_user_plane := Some (sgup_name sgup);
     u_desired_network_connection := Some (iterate (fst m));
     u_current_tsf_network_connection := Some (snd m);
     u_service_groups_supported := Some (supported_groups sgup);
     u_prefix := Some (shard_prefix shard);
     u_list_merge_strategy := Some "replace" |}.

(** The body of [for shard in shards] in the branch with user planes. None
    of the operations below raises the KeyError or RuntimeError that the
    handler of the loop body catches. *)
Definition map_shard {order : SetOrder} (config_file : ConfigFile) (st : Store)
  (sg_names up_names : list string)
  (tsfs : list TrafficSteeringFunction) (ncs : list NetworkConnection)
  (shard : Shard) : list Event * Flow :=
  let finger_active := finger (shard_desired_sgup shard) (shard_desired_nc shard) in
  match fingerprint finger_active with
  | None => ([], Raise UnicodeEncodeError)
  | Some fp_active =>
      let (ws, static_up_name) :=
        get_static_shard_to_sgup_mapping config_file (shard_name shard) in
      let (es, sel) :=
        select_sgup (service_gateway_user_planes st) sg_names up_names shard static_up_name in
      match sel with
      | ReturnFromSweep => (ws ++ es, Return)
      | SkipShard => (ws ++ es, Next)
      | Selected up_name =>
          match get_service_gateway_user_plane st up_name with
          | None => (ws ++ es, Raise UpsfError)
          | Some service_gateway_user_plane =>
              let up_name_next := sgup_name service_gateway_user_plane in
              let up_ep_name :=
                endpoint_name (sgup_default_endpoint service_gateway_user_plane) in
              let m := match_network_connections up_ep_name tsfs ncs in
              let finger_desired := finger up_name_next (iterate (fst m)) in
              match fingerprint finger_desired with
              | None => (ws ++ es, Raise UnicodeEncodeError)
              | Some fp_desired =>
                  if negb (String.eqb fp_desired fp_active)
                  then (ws ++ es ++ [EvUpdateShard (update_params shard service_gateway_user_plane m)],
                        Next)
                  else (ws ++ es, Next)
              end
          end
      end
  end.

(** How [map_shards] ends. *)
Inductive Exit :=
| Completed               (* the shard loop ran to its end *)
| Returned                (* a [return] statement ended the sweep *)
| Failed (e : Exception). (* an exception ended the shard loop *)

Fixpoint shard_loop (body : Shard -> list Event * Flow) (l : list Shard)
  : list Event * Exit :=
  match l with
  | [] => ([], Completed)
  | shard :: rest =>
      let (es, flow) := body shard in
      match flow with
      | Next => let (es', x) := shard_loop body rest in (es ++ es', x)
      | Return => (es, Returned)
      | Raise e => (es, Failed e)
      end
  end.

(** The update of the branch without user planes. *)
Definition reset_params (shard : Shard) : UpdateParams :=
  {| u_name := shard_name shard;
     u_desired_service_gateway_user_plane := None;
     u_desired_network_connection := None;
     u_current_tsf_network_connection := None;
     u_service_groups_supported := None;
     u_prefix := Some (shard_prefix shard);
     u_list_merge_strategy := Some "replace" |}.

Definition has_desired_sgup (shard : Shard) : bool :=
  negb (String.eqb (shard_desired_sgup shard) "").

Definition map_shards {order : SetOrder} (config_file : ConfigFile) (st : Store)
  : list Event * Exit :=
  let sgs := service_gateways st in
  let sgups := service_gateway_user_planes st in
  let shards := shards st in
  if (List.length sgups =? 0)%nat then
    (EvWarning NoUserPlanesAvailable
       :: map (fun shard => EvUpdateShard (reset_params shard))
              (filter has_desired_sgup shards),
     Returned)
  else
    let tsfs := traffic_steering_functions st in
    let ncs := network_connections st in
    let sg_names := map sg_name sgs in
    let up_names := map sgup_name sgups in
    shard_loop (map_shard config_file st sg_names up_names tsfs ncs) shards.

(** ** The store's side of [update_shard] and [create_shard] *)

(** Modelled from the spec: the store's [updateShard], which this repository
    only calls. It is a partial update of the shard of that name: a scalar
    field that the call does not pass keeps its value, and under
    [list_merge_strategy = "replace"] every list-valued field takes the list
    passed, the empty list when none is passed. *)
Definition update_shard (p : UpdateParams) (shard : Shard) : Shard :=
  if String.eqb (shard_name shard) (u_name p) then
    let list_field {A : Type} (given : option (list A)) (old : list A) : list A :=
      match given, u_list_merge_strategy p with
      | Some l, Some "replace" => l
      | None, Some "replace" => []
      | Some l, _ => old ++ l
      | None, _ => old
      end in
    {| shard_name := shard_name shard;
       shard_prefix := list_field (u_prefix p) (shard_prefix shard);
       shard_desired_sgup :=
         match u_desired_service_gateway_user_plane p with
         | Some up => up
         | None => shard_desired_sgup shard
         end;
       shard_desired_nc := list_field (u_desired_network_connection p) (shard_desired_nc shard);
       shard_current_tsf_nc :=
         list_field (u_current_tsf_network_connection p) (shard_current_tsf_nc shard);
       shard_service_groups_supported :=
         list_field (u_service_groups_supported p) (shard_service_groups_supported shard);
       shard_max_session_count := shard_max_session_count shard;
       shard_allocated_session_count := shard_allocated_session_count shard;
       shard_virtual_mac := shard_virtual_mac shard |}
  else shard.

(** Modelled from the spec: the store's [createShard], which this repository
    only calls; the new shard has the fields of the call and no network
    connections. *)
Definition create_shard (p : CreateParams) : Shard :=
  {| shard_name := c_name p;
     shard_prefix := c_prefix p;
     shard_desired_sgup :=
       match c_desired_service_gateway_user_plane p with
       | Some up => up
       | None => ""
       end;
     shard_desired_nc := [];
     shard_current_tsf_nc := [];
     shard_service_groups_supported := [];
     shard_max_session_count := c_max_session_count p;
     shard_allocated_session_count := c_allocated_session_count p;
     shard_virtual_mac := c_virtual_mac p |}.

Definition apply_event (st : Store) (e : Event) : Store :=
  match e with
  | EvUpdateShard p =>
      {| service_gateways := service_gateways st;
         service_gateway_user_planes := service_gateway_user_planes st;
         shards := map (update_shard p) (shards st);
         traffic_steering_functions := traffic_steering_functions st;
         network_connections := network_connections st |}
  | EvCreateShard p =>
      {| service_gateways := service_gateways st;
         service_gateway_user_planes := service_gateway_user_planes st;
         shards := shards st ++ [create_shard p];
         traffic_steering_functions := traffic_steering_functions st;
         network_connections := network_connections st |}
  | _ => st
  end.

(** The store after the writes of a trace, nothing else writing to it. *)
Definition apply_events (st : Store) (t : list Event) : Store :=
  fold_left apply_event t st.

(** The store after one sweep. *)
Definition after_map_shards {order : SetOrder} (config_file : ConfigFile) (st : Store)
  : Store :=
  apply_events st (fst (map_shards config_file st)).

(** ** create_default_items *)

(** A value of [ipaddress.ip_address]: the version and the integer. *)
Inductive IPAddress :=
| IPv4Address (n : Z)
| IPv6Address (n : Z).

Definition ip_eqb (a b : IPAddress) : bool :=
  match a, b with
  | IPv4Address x, IPv4Address y => x =? y
  | IPv6Address x, IPv6Address y => x =? y
  | _, _ => false
  end.

Definition ip_in (a : IPAddress) (l : list IPAddress) : bool := existsb (ip_eqb a) l.

(** [set(l)] on addresses. *)
Fixpoint ip_set (l : list IPAddress) : list IPAddress :=
  match l with
  | [] => []
  | a :: r => if ip_in a r then ip_set r else a :: ip_set r
  end.

(** [s - t] on sets of addresses. *)
Definition ip_diff (s t : list IPAddress) : list IPAddress :=
  filter (fun a => negb (ip_in a t)) s.

Section CreateDefaultItems.

(** Python's [ipaddress] module, which the program calls: [None] stands for
    the ValueError of a string that does not parse. *)
Variable ip_address : string -> option IPAddress.
(** [ipaddress.ip_network(prefix).hosts()] *)
Variable ip_network_hosts : string -> option (list IPAddress).

(** [set(ipaddress.ip_address(host) for host in ...)] *)
Fixpoint ip_addresses (l : list string) : option (list IPAddress) :=
  match l with
  | [] => Some []
  | host :: r =>
      match ip_address host with
      | None => None
      | Some a => option_map (cons a) (ip_addresses r)
      end
  end.

Definition entry_exclude (entry : Entry) : list string :=
  match e_exclude entry with Some l => l | None => [] end.

Definition entry_prefixes (entry : Entry) : list string :=
  match e_prefixes entry with Some l => l | None => [] end.

(** The body of the [try] for one prefix: the number of hosts it adds, or
    [None] for a ValueError. *)
Definition hosts_of_prefix (entry : Entry) (prefix : string) : option Z :=
  match ip_addresses (entry_exclude entry) with
  | None => None
  | Some exclude_hosts =>
      match ip_network_hosts prefix with
      | None => None
      | Some hs => Some (Z.of_nat (List.length (ip_diff (ip_set hs) (ip_set exclude_hosts))))
      end
  end.

(** [for prefix in entry.get("prefixes", [])], from the count so far. *)
Fixpoint count_sessions (entry : Entry) (prefixes : list string)
  (max_session_count : Z) : list Event * Z :=
  match prefixes with
  | [] => ([], max_session_count)
  | prefix :: rest =>
      match hosts_of_prefix entry prefix with
      | Some n => count_sessions entry rest (max_session_count + n)
      | None =>
          let (ws, r) := count_sessions entry rest max_session_count in
          (EvWarning (InvalidPrefix prefix entry) :: ws, r)
      end
  end.

Definition sgup_names_of (st : Store) : list string :=
  map sgup_name (service_gateway_user_planes st).

(** The state of the entry loop: the store and the list [sgup_names]. *)
Definition LoopState : Type := Store * list string.

Definition is_pinned (entry : Entry) : option string :=
  match e_serviceGatewayUserPlane entry with
  | Some (Some p) => Some p
  | _ => None
  end.

(** The body of [for entry in ...]. [existing] are the keys of the dict
    [shards], read once before the loop. *)
Definition create_default_item (virtual_mac : string) (existing : list string)
  (s : LoopState) (entry : Entry) : list Event * LoopState :=
  let (st, sgup_names) := s in
  match e_name entry, e_prefixes entry with
  | None, _ => ([EvWarning (ParamNotFound "name" entry)], s)
  | Some _, None => ([EvWarning (ParamNotFound "prefixes" entry)], s)
  | Some name, Some prefixes =>
      if str_in name existing then ([], s)
      else
        let (ws, max_session_count) := count_sessions entry prefixes 0 in
        let sgup_names :=
          if (List.length sgup_names =? 0)%nat then sgup_names_of st else sgup_names in
        match is_pinned entry with
        | Some desired_sgup =>
            if negb (str_in desired_sgup (sgup_names_of st))
            then (ws ++ [EvWarning (DesiredSgupNotAvailable name desired_sgup)],
                  (st, sgup_names))
            else
              let params := mkCreate name virtual_mac 0 max_session_count prefixes
                              (Some desired_sgup) in
              (ws ++ [EvAddEntry entry params; EvCreateShard params],
               (apply_event st (EvCreateShard params), sgup_names))
        | None =>
            match sgup_names with
            | head :: tail =>
                let params := mkCreate name virtual_mac 0 max_session_count prefixes
                                (Some head) in
                (ws ++ [EvAddEntry entry params; EvCreateShard params],
                 (apply_event st (EvCreateShard params), tail))
            | [] =>
                let params := mkCreate name virtual_mac 0 max_session_count prefixes None in
                (ws ++ [EvAddEntry entry params; EvCreateShard params],
                 (apply_event st (EvCreateShard params), []))
            end
        end
  end.

Fixpoint entry_loop (virtual_mac : string) (existing : list string)
  (s : LoopState) (entries : list Entry) : list Event * LoopState :=
  match entries with
  | [] => ([], s)
  | entry :: rest =>
      let (es, s') := create_default_item virtual_mac existing s entry in
      let (es', s'') := entry_loop virtual_mac existing s' rest in
      (es ++ es', s'')
  end.

Definition create_default_items (config_file : ConfigFile) (virtual_mac : string)
  (st : Store) : list Event * Exit :=
  match config_file with
  | NoFile => ([], Returned)
  | _ =>
      if (List.length (service_gateway_user_planes st) =? 0)%nat
      then ([EvWarning NoSgupsAvailable], Returned)
      else
        let existing := map shard_name (shards st) in
        match config_file with
        | Config entries =>
            (fst (entry_loop virtual_mac existing (st, []) entries), Completed)
        | _ => ([], Failed AttributeError)
        end
  end.

End CreateDefaultItems.

(** ** An instance of the address parser: dotted-quad IPv4

    The IPv4 forms of Python's [ipaddress] that the policy files of the
    specification use: [a.b.c.d] for an address and [a.b.c.d/len] for a
    network whose host bits are zero. The general statements below hold for
    any parser; this one serves the worked examples. *)

Module IPv4.

Definition digit (c : ascii) : option Z :=
  let b := byte_of c in
  if (48 <=? b) && (b <=? 57) then Some (b - 48) else None.

Fixpoint decimal_from (acc : Z) (s : string) : option Z :=
  match s with
  | EmptyString => Some acc
  | String c r =>
      match digit c with
      | Some d => decimal_from (10 * acc + d) r
      | None => None
      end
  end.

Definition decimal (s : string) : option Z :=
  match s with
  | EmptyString => None
  | _ => decimal_from 0 s
  end.

(** [s.split(sep)] *)
Fixpoint split (sep : ascii) (s : string) : list string :=
  match s with
  | EmptyString => [EmptyString]
  | String c r =>
      if Ascii.eqb c sep then EmptyString :: split sep r
      else
        match split sep r with
        | h :: t => String c h :: t
        | [] => [String c EmptyString]
        end
  end.

(** An octet: one to three digits, no leading zero, at most 255. *)
Definition octet (s : string) : option Z :=
  match decimal s with
  | Some v =>
      if (String.length s <=? 3)%nat
         && (v <=? 255)
         && negb ((1 <? String.length s)%nat && String.prefix "0" s)
      then Some v else None
  | None => None
  end.

Definition address (s : string) : option Z :=
  match map octet (split "." s) with
  | [Some a; Some b; Some c; Some d] => Some (((a * 256 + b) * 256 + c) * 256 + d)
  | _ => None
  end.

Definition ip_address (s : string) : option IPAddress :=
  option_map IPv4Address (address s).

(** The network address and the prefix length; the host bits must be zero. *)
Definition network (s : string) : option (Z * Z) :=
  match split "/" s with
  | [a] => option_map (fun n => (n, 32)) (address a)
  | [a; p] =>
      match address a, decimal p with
      | Some n, Some len =>
          if (len <=? 32) && (n mod 2 ^ (32 - len) =? 0) then Some (n, len) else None
      | _, _ => None
      end
  | _ => None
  end.

(** [hosts()]: all addresses but the network and the broadcast address; both
    addresses of a /31 and the one address of a /32. *)
Definition hosts (net : Z * Z) : list Z :=
  let (n, len) := net in
  if len =? 32 then [n]
  else if len =? 31 then [n; n + 1]
  else map (fun i => n + 1 + Z.of_nat i) (seq 0 (Z.to_nat (2 ^ (32 - len) - 2))).

Definition ip_network_hosts (s : string) : option (list IPAddress) :=
  option_map (fun net => map IPv4Address (hosts net)) (network s).

End IPv4.

(** ** str2bool *)

(** [c.lower()] on a character. A code above 127 is left as it is: no
    character outside ASCII lowers to a letter of the words that
    [str2bool] accepts, so its answer is the same. *)
Definition lower_char (c : ascii) : ascii :=
  let b := byte_of c in
  if (65 <=? b) && (b <=? 90) then ascii_of_N (Z.to_N (b + 32)) else c.

(** [value.lower()] *)
Fixpoint lower (s : string) : string :=
  match s with
  | EmptyString => EmptyString
  | String c r => String (lower_char c) (lower r)
  end.

Definition str2bool (value : string) : bool :=
  str_in (lower value) ["true"; "1"; "t"; "y"; "yes"].

(** ** run: the items of the watch *)

(** A notification as [run] reads it: the names of the four kinds of item
    it may carry, empty for a kind that is not set. *)
Record Item := mkItem {
  item_service_gateway_user_plane : string;
  item_traffic_steering_function : string;
  item_network_connection : string;
  item_shard : string
}.

(** The body of [for item in upsf_subscriber.read(...)], the stop event not
    being set: the chain of tests, each of which calls [map_shards]. An
    exception of the sweep is suppressed; what the sweep did before stays. *)
Definition on_item {order : SetOrder} (config_file : ConfigFile) (st : Store)
  (item : Item) : list Event :=
  if negb (String.eqb (item_service_gateway_user_plane item) "")
  then fst (map_shards config_file st)
  else if negb (String.eqb (item_traffic_steering_function item) "")
  then fst (map_shards config_file st)
  else if negb (String.eqb (item_network_connection item) "")
  then fst (map_shards config_file st)
  else if negb (String.eqb (item_shard item) "")
  then fst (map_shards config_file st)
  else [].

(** The items of one subscription, one after the other, the store being
    written by the sweeps only. *)
Fixpoint run_items {order : SetOrder} (config_file : ConfigFile) (st : Store)
  (items : list Item) : list Event :=
  match items with
  | [] => []
  | item :: rest =>
      let t := on_item config_file st item in
      t ++ run_items config_file (apply_events st t) rest
  end.

(** * Notions used in the statements *)

(** The user plane chosen for a shard and the network connections matched
    for it, when the sweep gets that far for the shard. *)
Definition decision (config_file : ConfigFile) (st : Store)
  (sg_names up_names : list string)
  (tsfs : list TrafficSteeringFunction) (ncs : list NetworkConnection)
  (shard : Shard) : option (ServiceGatewayUserPlane * Matching) :=
  match snd (select_sgup (service_gateway_user_planes st) sg_names up_names shard
               (snd (get_static_shard_to_sgup_mapping config_file (shard_name shard)))) with
  | Selected up_name =>
      match get_service_gateway_user_plane st up_name with
      | Some u =>
          Some (u, match_network_connections
                     (endpoint_name (sgup_default_endpoint u)) tsfs ncs)
      | None => None
      end
  | _ => None
  end.

(** The same network connection under another tag of the one-of. *)
Definition with_tag (tag : string) (nc : NetworkConnection) : NetworkConnection :=
  mkNC (nc_name nc) (Some tag) (nc_ss_ptp nc) (nc_ss_mptp nc) (nc_ms_ptp nc)
    (nc_ms_mptp nc).

(** The fingerprint of the stored desired state of a shard. *)
Definition fp_active (shard : Shard) : option string :=
  fingerprint (finger (shard_desired_sgup shard) (shard_desired_nc shard)).

(** The fingerprint of a chosen user plane with its matched connections,
    as the set of these is iterated. *)
Definition fp_desired {order : SetOrder} (d : ServiceGatewayUserPlane * Matching)
  : option string :=
  fingerprint (finger (sgup_name (fst d)) (iterate (fst (snd d)))).







(** An event that is a logged warning. *)
Definition is_warning (e : Event) : Prop := exists w, e = EvWarning w.

(** An event of a sweep is a warning or an update. *)
Definition sweep_event (e : Event) : Prop := is_warning e \/ exists p, e = EvUpdateShard p.

(** The shard after the updates [us], one after the other. *)
Definition apply_updates (us : list UpdateParams) (shard : Shard) : Shard :=
  fold_left (fun h p => update_shard p h) us shard.



(** The desired user plane of a shard created from an entry without pin. *)
Definition unpinned_binding (e : Event) : option (option string) :=
  match e with
  | EvAddEntry entry p =>
      match is_pinned entry with
      | None => Some (c_desired_service_gateway_user_plane p)
      | Some _ => None
      end
  | _ => None
  end.

(** The bindings of the shards created without pin, in creation order. *)
Definition unpinned_bindings (t : list Event) : list (option string) :=
  filter_map unpinned_binding t.

(** What the list [sgup_names] holds after [k] shards took a name from it:
    nothing, when [k] is a multiple of the number of user planes, or the
    names of the store from position [k mod n] on. *)
Definition fifo_inv (names : list string) (k : nat) (fifo : list string) : Prop :=
  (fifo = [] /\ Nat.modulo k (List.length names) = 0%nat)
  \/ (fifo <> [] /\ fifo = skipn (Nat.modulo k (List.length names)) names).

(** [c.upper()] on an ASCII character, and [s.upper()]. *)
Definition upper_char (c : ascii) : ascii :=
  let b := byte_of c in
  if (97 <=? b) && (b <=? 122) then ascii_of_N (Z.to_N (b - 32)) else c.

Fixpoint upper (s : string) : string :=
  match s with
  | EmptyString => EmptyString
  | String c r => String (upper_char c) (upper r)
  end.

(** The topology rule: does the network connection link the endpoint
    [up_ep_name] of a user plane to the default endpoint of [tsf]? *)
Definition connects (up_ep_name : string) (tsf : TrafficSteeringFunction)
  (nc : NetworkConnection) : bool :=
  let is_up (e : Endpoint) := String.eqb up_ep_name (endpoint_name e) in
  let is_tsf (e : Endpoint) :=
    String.eqb (endpoint_name (tsf_default_endpoint tsf)) (endpoint_name e) in
  if tag_in (nc_spec_type nc) ["SsPtpSpec"; "ss_ptp"] then
    existsb is_up (ss_ptp_sgup_endpoint (nc_ss_ptp nc))
    && is_tsf (ss_ptp_tsf_endpoint (nc_ss_ptp nc))
  else if tag_in (nc_spec_type nc) ["SsMptpSpec"; "ss_mptpc"] then
    existsb is_up (ss_mptp_sgup_endpoint (nc_ss_mptp nc))
    && existsb is_tsf (ss_mptp_tsf_endpoint (nc_ss_mptp nc))
  else if tag_in (nc_spec_type nc) ["MsPtpSpec"; "ms_ptp"] then
    is_up (ms_ptp_sgup_endpoint (nc_ms_ptp nc))
    && is_tsf (ms_ptp_tsf_endpoint (nc_ms_ptp nc))
  else if tag_in (nc_spec_type nc) ["MsMptpSpec"; "ms_mptp"] then
    is_up (ms_mptp_sgup_endpoint (nc_ms_mptp nc))
    && existsb is_tsf (ms_mptp_tsf_endpoint (nc_ms_mptp nc))
  else false.

(** The store with other shards. *)
Definition with_shards (st : Store) (l : list Shard) : Store :=
  mkStore (service_gateways st) (service_gateway_user_planes st) l
    (traffic_steering_functions st) (network_connections st).

(** The [create_shard] calls of a trace. *)
Definition create_of (e : Event) : option CreateParams :=
  match e with EvCreateShard p => Some p | _ => None end.

Definition creates (t : list Event) : list CreateParams := filter_map create_of t.

(** Does an item carry a name of one of the four kinds? *)
Definition triggers (item : Item) : bool :=
  negb (String.eqb (item_service_gateway_user_plane item) "")
  || negb (String.eqb (item_traffic_steering_function item) "")
  || negb (String.eqb (item_network_connection item) "")
  || negb (String.eqb (item_shard item) "").

(** A string without the character [c]. *)
Definition lacks (c : ascii) (s : string) : Prop :=
  ~ In c (list_ascii_of_string s).

(** The name under which an entry of the policy is created, if it is: it
    has a name and prefixes, no shard of that name is in [existing], and
    its pin, if any, is one of [names]. *)
Definition materialized (existing names : list string) (entry : Entry)
  : option string :=
  match e_name entry, e_prefixes entry with
  | Some name, Some _ =>
      if str_in name existing then None
      else
        match is_pinned entry with
        | Some desired_sgup => if str_in desired_sgup names then Some name else None
        | None => Some name
        end
  | _, _ => None
  end.

(** An entry of the policy that carries both keys of a pin, for the shard
    [shard_name]. *)
Definition pins (shard_name : string) (entry : Entry) : bool :=
  match e_name entry, e_serviceGatewayUserPlane entry with
  | Some name, Some _ => String.eqb name shard_name
  | _, _ => false
  end.

(** The names of network connections that a fingerprint tells apart: none
    is empty, none holds a comma. *)
Definition plain_names (ncs : list string) : Prop :=
  forall n, In n ncs -> n <> "" /\ lacks "," n.

(** An event of [create_default_items]: a warning, the record of an entry
    added, or the creation of a shard. *)
Definition create_event (e : Event) : Prop :=
  is_warning e \/ (exists entry p, e = EvAddEntry entry p) \/ (exists p, e = EvCreateShard p).

(** [h'] agrees with [h] on what the reset of a shard reads of it. *)
Definition same_reset (h h' : Shard) : Prop :=
  shard_name h' = shard_name h
  /\ shard_prefix h' = shard_prefix h
  /\ shard_desired_sgup h' = shard_desired_sgup h.

(** * Items of the worked scenarios *)

(** A user plane with endpoint [ep] in service gateway [sg]; one of its two
    service groups is the empty label. *)
Definition sample_sgup (name sg ep : string) (allocated max : Z)
  : ServiceGatewayUserPlane :=
  mkSGUP name sg max (mkEndpoint ep) ["internet"; ""] allocated.

(** A shard bound to [up] with the network connections [ncs]. *)
Definition sample_shard (name up : string) (ncs : list string) : Shard :=
  mkShard name ["10.0.0.0/24"] up ncs [] [] 254 0 "00:00:01:00:00:00".

(** A policy entry that pins shard [name] to user plane [up]. *)
Definition pin (name up : string) : Entry :=
  mkEntry (Some name) (Some ["10.0.0.0/24"]) None (Some (Some up)).

(** An MS-PTP and an SS-MPTP network connection with a given tag. *)
Definition ms_ptp_nc (name tag tsf_ep up_ep : string) : NetworkConnection :=
  mkNC name (Some tag) no_ss_ptp no_ss_mptp
    (mkMsPtp (mkEndpoint tsf_ep) (mkEndpoint up_ep)) no_ms_mptp.

Definition ss_mptp_nc (name tag : string) (tsf_eps up_eps : list string)
  : NetworkConnection :=
  mkNC name (Some tag) no_ss_ptp
    (mkSsMptp (map mkEndpoint tsf_eps) (map mkEndpoint up_eps))
    no_ms_ptp no_ms_mptp.

(** The empty fleet of the specification: no user plane, [s1] still
    bound to [u-old] with the network connection [nc-x]. *)
Definition empty_fleet : Store :=
  mkStore [mkSG "sg1"] []
    [sample_shard "s1" "u-old" ["nc-x"]; sample_shard "s2" "" []]
    [mkTSF "t1" (mkEndpoint "ep-T1")]
    [ms_ptp_nc "nc-x" "ms_ptp" "ep-T1" "ep-old"].

(** Two user planes, [B] the less loaded; shard [s] pinned to the missing
    user plane [Z], before and after a shard [t] that awaits its binding. *)
Definition two_planes : list ServiceGatewayUserPlane :=
  [sample_sgup "A" "sg1" "ep-A" 10 100; sample_sgup "B" "sg1" "ep-B" 5 100].

Definition pinned_to_missing : ConfigFile := Config [pin "s" "Z"].

Definition store_pin_first : Store :=
  mkStore [mkSG "sg1"] two_planes
    [sample_shard "s" "" []; sample_shard "t" "" []]
    [mkTSF "t1" (mkEndpoint "ep-T1")]
    [ms_ptp_nc "nc-b" "ms_ptp" "ep-T1" "ep-B"].

Definition store_pin_last : Store :=
  mkStore [mkSG "sg1"] two_planes
    [sample_shard "t" "" []; sample_shard "s" "" []]
    [mkTSF "t1" (mkEndpoint "ep-T1")]
    [ms_ptp_nc "nc-b" "ms_ptp" "ep-T1" "ep-B"].

Definition update_of_t : UpdateParams :=
  mkUpdate "t" (Some "B") (Some ["nc-b"]) (Some [("t1", "nc-b")])
    (Some ["internet"]) (Some ["10.0.0.0/24"]) (Some "replace").

Definition one_tsf : list TrafficSteeringFunction := [mkTSF "t1" (mkEndpoint "ep-T1")].

(** Two snapshots for one shard. The shard [s] is bound to [A] with the
    network connections [nc1] and [nc2], as a sweep of the process leaves
    it that finds it unbound in the first snapshot. In the second snapshot
    the user plane [A] supports other service groups and the network
    connections come in the other order, so that [nc1] instead of [nc2]
    holds the slot of [t1]; the names are first matched in the same order
    in both, [nc1] for [t0] and then [nc2]. *)
Definition two_tsfs : list TrafficSteeringFunction :=
  [mkTSF "t0" (mkEndpoint "ep-T0"); mkTSF "t1" (mkEndpoint "ep-T1")].

Definition nc1_multi : NetworkConnection :=
  mkNC "nc1" (Some "ms_mptp") no_ss_ptp no_ss_mptp no_ms_ptp
    (mkMsMptp [mkEndpoint "ep-T0"; mkEndpoint "ep-T1"] (mkEndpoint "ep-A")).

Definition nc2_single : NetworkConnection := ms_ptp_nc "nc2" "ms_ptp" "ep-T1" "ep-A".

Definition plane_A (groups : list string) : ServiceGatewayUserPlane :=
  mkSGUP "A" "sg1" 100 (mkEndpoint "ep-A") groups 10.

Definition unbound_snapshot : Store :=
  mkStore [mkSG "sg1"] [plane_A ["internet"]] [sample_shard "s" "" []] two_tsfs
    [nc1_multi; nc2_single].

Definition bound_shard : Shard :=
  mkShard "s" ["10.0.0.0/24"] "A" ["nc1"; "nc2"] [("t0", "nc1"); ("t1", "nc2")]
    ["internet"] 254 0 "00:00:01:00:00:00".

Definition snapshot_one : Store :=
  mkStore [mkSG "sg1"] [plane_A ["internet"]] [bound_shard] two_tsfs
    [nc1_multi; nc2_single].

Definition snapshot_two : Store :=
  mkStore [mkSG "sg1"] [plane_A ["voice"; "iptv"]] [bound_shard] two_tsfs
    [nc2_single; nc1_multi].

Definition decision_one : ServiceGatewayUserPlane * Matching :=
  (plane_A ["internet"], (["nc1"; "nc2"], [("t0", "nc1"); ("t1", "nc2")])).

Definition decision_two : ServiceGatewayUserPlane * Matching :=
  (plane_A ["voice"; "iptv"], (["nc1"; "nc2"], [("t0", "nc1"); ("t1", "nc1")])).

(** Two network connections that both connect [t1] to [A], in either
    order: the order decides which of them holds the slot of [t1], and
    which name is added to the set first. The shard [s] is as a sweep of
    the process leaves it when [nc1] comes first. *)
Definition nc1_single : NetworkConnection := ms_ptp_nc "nc1" "ms_ptp" "ep-T1" "ep-A".

Definition swap_shard : Shard :=
  mkShard "s" ["10.0.0.0/24"] "A" ["nc1"; "nc2"] [("t1", "nc2")]
    ["internet"] 254 0 "00:00:01:00:00:00".

Definition swap_unbound : Store :=
  mkStore [mkSG "sg1"] [plane_A ["internet"]] [sample_shard "s" "" []]
    [mkTSF "t1" (mkEndpoint "ep-T1")] [nc1_single; nc2_single].

Definition swap_before : Store :=
  mkStore [mkSG "sg1"] [plane_A ["internet"]] [swap_shard]
    [mkTSF "t1" (mkEndpoint "ep-T1")] [nc1_single; nc2_single].

Definition swap_after : Store :=
  mkStore [mkSG "sg1"] [plane_A ["internet"]] [swap_shard]
    [mkTSF "t1" (mkEndpoint "ep-T1")] [nc2_single; nc1_single].

(** The least-loaded pick of the specification: [B] at 5/100 among
    [A] at 10/100, [B] and [C] at 50/100. *)
Definition three_planes : Store :=
  mkStore [mkSG "sg1"]
    [sample_sgup "A" "sg1" "ep-A" 10 100;
     sample_sgup "B" "sg1" "ep-B" 5 100;
     sample_sgup "C" "sg1" "ep-C" 50 100]
    [sample_shard "s" "" []] [] [].


(** Shard [s] bound to [B] and pinned to [A], and an unbound shard [t]. *)
Definition pin_s_to_A : ConfigFile := Config [pin "s" "A"].

Definition store_two_shards : Store :=
  mkStore [mkSG "sg1"] two_planes
    [sample_shard "s" "B" []; sample_shard "t" "" []]
    [mkTSF "t1" (mkEndpoint "ep-T1")]
    [ms_ptp_nc "nc-a" "ms_ptp" "ep-T1" "ep-A"; ms_ptp_nc "nc-b" "ms_ptp" "ep-T1" "ep-B"].

(** Shard [s] as the store holds it after the sweep. *)
Definition s_after_sweep : Shard :=
  mkShard "s" ["10.0.0.0/24"] "A" ["nc-a"] [("t1", "nc-a")] ["internet"]
    254 0 "00:00:01:00:00:00".

(** A shard bound to [P/a] and pinned to [P], whose one matching network
    connection is named [a/]. *)
Definition slash_store : Store :=
  mkStore [mkSG "sg1"] [sample_sgup "P" "sg1" "ep-P" 0 100]
    [sample_shard "s" "P/a" []]
    [mkTSF "t1" (mkEndpoint "ep-T1")]
    [ms_ptp_nc "a/" "ms_ptp" "ep-T1" "ep-P"].

(** The capacity computation of the specification: a /30 has the two hosts
    [.1] and [.2]; with [.1] excluded one is left. The store has one user
    plane and no shard. *)
Definition one_plane : Store :=
  mkStore [mkSG "sg1"] [sample_sgup "A" "sg1" "ep-A" 0 100] [] [] [].

Definition entry_s : Entry :=
  mkEntry (Some "s") (Some ["10.0.0.0/30"]) (Some ["10.0.0.1"]) None.

Definition created_s : CreateParams :=
  mkCreate "s" "00:00:01:00:00:00" 0 1 ["10.0.0.0/30"] (Some "A").

(** An entry with an exclusion that is no address, and one with a prefix
    that is no network. *)
Definition entry_bad_exclude : Entry :=
  mkEntry (Some "s") (Some ["10.0.0.0/30"; "10.0.1.0/30"])
    (Some ["10.0.0.1"; "10.0.0.300"]) None.

Definition entry_bad_prefix : Entry :=
  mkEntry (Some "s") (Some ["10.0.0.0/30"; "10.0.1.0/33"; "10.0.2.0/30"])
    (Some ["10.0.0.1"]) None.

(** Entries without pin, and a store with the two user planes [A], [B]. *)
Definition plain_entry (name prefix : string) : Entry :=
  mkEntry (Some name) (Some [prefix]) None None.

Definition two_plane_store : Store := mkStore [mkSG "sg1"] two_planes [] [] [].

Definition four_entries : ConfigFile :=
  Config [plain_entry "s1" "10.0.1.0/24"; plain_entry "s2" "10.0.2.0/24";
          pin "s3" "B"; plain_entry "s4" "10.0.4.0/24"].

(** A process whose hash table lists the names of a set in the order in
    which they were added. *)
Definition insertion_order : SetOrder :=
  {| iterate := fun s => s; iterate_permutes := @Permutation_refl string |}.

(** * Properties *)

(** ** The model against known values *)

Example sha256_abc :
  option_map SHA256.hexdigest (encode_ascii "abc")
  = Some "ba7816bf8f01cfea414140de5dae2223b00361a396177a9cb410ff61f20015ad".
Proof. vm_compute. reflexivity. Qed.

Example sha256_empty :
  option_map SHA256.hexdigest (encode_ascii "")
  = Some "e3b0c44298fc1c149afbf4c8996fb92427ae41e4649b934ca495991b7852b855".
Proof. vm_compute. reflexivity. Qed.

Example sha256_two_blocks :
  option_map SHA256.hexdigest
    (encode_ascii "aaaaaaaaaaaaaaaaaaaaaaaaaaaaaaaaaaaaaaaaaaaaaaaaaaaaaaaaaaaaaaaaaaaaaa")
  = Some "6bd5e5034855a11241f0dee8fc72850ffd9955b28347a86428b5fa19119f6ad0".
Proof. vm_compute. reflexivity. Qed.

Example true_div_third : true_div 1 3 = Qmake 6004799503160661 18014398509481984.
Proof. vm_compute. reflexivity. Qed.

Example true_div_tenth :
  Qeq_bool (true_div 1 10) (Qmake 3602879701896397 36028797018963968) = true.
Proof. vm_compute. reflexivity. Qed.

Example true_div_seven_thirds :
  Qeq_bool (true_div 7 3) (Qmake 5254199565265579 2251799813685248) = true.
Proof. vm_compute. reflexivity. Qed.

Example true_div_large :
  Qeq_bool (true_div (10 ^ 30) 3) (Qmake 333333333333333316505293553664 1) = true.
Proof. vm_compute. reflexivity. Qed.

Example true_div_rounds_together :
  true_div 2147483647 2147483646 = true_div 2147483646 2147483645.
Proof. vm_compute. reflexivity. Qed.

Example ipv4_hosts_30 :
  IPv4.ip_network_hosts "10.0.0.0/30"
  = Some [IPv4Address 167772161; IPv4Address 167772162].
Proof. vm_compute. reflexivity. Qed.

Example ipv4_host_bits_set : IPv4.ip_network_hosts "10.0.0.1/30" = None.
Proof. vm_compute. reflexivity. Qed.

Example ipv4_bad_address : IPv4.ip_address "10.0.0.256" = None.
Proof. vm_compute. reflexivity. Qed.

(** ** The branch without user planes *)

(** C7. With no user plane in the snapshot, the sweep logs its warning,
    issues for each shard whose stored desired user plane is not empty
    exactly one [update_shard] that carries the name, the shard's prefix and
    the merge strategy "replace" and nothing else, in shard order, issues
    nothing for the other shards, and returns: the trace holds nothing else,
    whatever the policy, the traffic steering functions and the network
    connections are. *)
Theorem map_shards_without_user_planes {order : SetOrder} :
  forall (config_file : ConfigFile) (st : Store),
    service_gateway_user_planes st = [] ->
    map_shards config_file st
    = (EvWarning NoUserPlanesAvailable
         :: map (fun shard =>
                   EvUpdateShard
                     (mkUpdate (shard_name shard) None None None None
                        (Some (shard_prefix shard)) (Some "replace")))
                (filter (fun shard => negb (String.eqb (shard_desired_sgup shard) ""))
                        (shards st)),
       Returned).
Proof.
  intros config_file st Hnone.
  unfold map_shards. rewrite Hnone. reflexivity.
Qed.

Lemma map_shards_without_user_planes_witness :
  service_gateway_user_planes empty_fleet = []
  /\ map_shards (order := insertion_order) NoFile empty_fleet
     = ([EvWarning NoUserPlanesAvailable;
         EvUpdateShard
           (mkUpdate "s1" None None None None (Some ["10.0.0.0/24"]) (Some "replace"))],
        Returned).
Proof.
  split.
  - reflexivity.
  - exact (map_shards_without_user_planes NoFile empty_fleet eq_refl).
Defined.

(** ** A static pin that cannot be resolved *)

(** The order in which a set is iterated plays no part while the set holds
    at most one name. *)
Lemma iterate_small {order : SetOrder} :
  forall s : list string, (List.length s <= 1)%nat -> iterate s = s.
Proof.
  intros [|x [|y l]] H.
  - apply Permutation_nil. apply Permutation_sym. apply iterate_permutes.
  - apply Permutation_length_1_inv. apply Permutation_sym. apply iterate_permutes.
  - simpl in H. lia.
Qed.

Lemma shard_loop_ext :
  forall body body' l,
    (forall shard, body shard = body' shard) ->
    shard_loop body l = shard_loop body' l.
Proof.
  intros body body' l H. induction l as [|h r IH]; simpl.
  - reflexivity.
  - rewrite H, IH. reflexivity.
Qed.

Lemma get_sgup_some :
  forall st name u,
    get_service_gateway_user_plane st name = Some u ->
    sgup_name u = name /\ In u (service_gateway_user_planes st).
Proof.
  intros st name u H. unfold get_service_gateway_user_plane in H.
  apply find_some in H. destruct H as [Hin Heq].
  apply String.eqb_eq in Heq. split; assumption.
Qed.

(** A sweep in which no user plane is matched by more than one network
    connection goes the same way in every process. *)
Lemma map_shards_small_sets {order : SetOrder} :
  forall config_file st,
    (forall u,
        In u (service_gateway_user_planes st) ->
        (List.length
           (fst (match_network_connections (endpoint_name (sgup_default_endpoint u))
                   (traffic_steering_functions st) (network_connections st))) <= 1)%nat) ->
    map_shards config_file st = map_shards (order := insertion_order) config_file st.
Proof.
  intros config_file st Hsmall. unfold map_shards.
  destruct (List.length (service_gateway_user_planes st) =? 0)%nat; [reflexivity|].
  apply shard_loop_ext. intro shard. unfold map_shard.
  destruct (fingerprint _) as [fa|]; [|reflexivity].
  destruct (get_static_shard_to_sgup_mapping config_file (shard_name shard))
    as [ws static].
  destruct (select_sgup _ _ _ _ _) as [es sel].
  destruct sel as [up_name| |]; try reflexivity.
  destruct (get_service_gateway_user_plane st up_name) as [u|] eqn:Hget;
    [|reflexivity].
  destruct (get_sgup_some _ _ _ Hget) as [_ Hin].
  unfold update_params. rewrite (iterate_small _ (Hsmall u Hin)). reflexivity.
Qed.

(** C1. Shard [s] is pinned to [Z], which no user plane bears; shard [t]
    has no desired user plane yet. With [s] first in the snapshot the sweep
    warns and returns at once: [t] is not processed and gets no update. With
    [t] first it is processed and written before the sweep returns at [s].
    So the unresolvable pin ends the whole sweep, not only its shard. *)
Theorem unresolvable_pin_ends_the_sweep {order : SetOrder} :
  map_shards pinned_to_missing store_pin_first
  = ([EvWarning (StaticSgupNotAvailable "s" "Z")], Returned)
  /\ map_shards pinned_to_missing store_pin_last
     = ([EvUpdateShard update_of_t; EvWarning (StaticSgupNotAvailable "s" "Z")],
        Returned).
Proof.
  split; rewrite map_shards_small_sets;
    try (vm_compute; reflexivity);
    intros u [Hu|[Hu|[]]]; subst u; vm_compute; lia.
Qed.

(** Whatever follows a shard with an unresolvable pin is left out. *)
Lemma shard_loop_return :
  forall body shard rest es,
    body shard = (es, Return) ->
    shard_loop body (shard :: rest) = (es, Returned).
Proof.
  intros body shard rest es H. simpl. rewrite H. reflexivity.
Qed.

(** ** The tags of the one-of *)

(** C3. A network connection of the SS-MPTP variant whose endpoint pair
    matches is recorded when its tag reads [SsMptpSpec] and is not recorded
    when its tag reads [ss_mptp]: the program tests for [ss_mptpc]. An
    MS-PTP network connection is matched alike under both forms of its
    tag. *)
Theorem ss_mptp_tag_not_recognized :
  match_network_connections "ep-A" one_tsf
    [ss_mptp_nc "nc1" "SsMptpSpec" ["ep-T1"] ["ep-A"]]
  = (["nc1"], [("t1", "nc1")])
  /\ match_network_connections "ep-A" one_tsf
       [ss_mptp_nc "nc1" "ss_mptp" ["ep-T1"] ["ep-A"]]
     = ([], [])
  /\ match_network_connections "ep-A" one_tsf
       [ms_ptp_nc "nc1" "MsPtpSpec" "ep-T1" "ep-A"]
     = match_network_connections "ep-A" one_tsf
         [ms_ptp_nc "nc1" "ms_ptp" "ep-T1" "ep-A"].
Proof. repeat split; vm_compute; reflexivity. Qed.

(** The three other variants are matched alike under both forms of their
    tag, whatever the network connection holds. *)
Lemma other_tags_recognized :
  forall up_ep_name tsf acc nc,
    match_network_connection up_ep_name tsf acc (with_tag "SsPtpSpec" nc)
    = match_network_connection up_ep_name tsf acc (with_tag "ss_ptp" nc)
    /\ match_network_connection up_ep_name tsf acc (with_tag "MsPtpSpec" nc)
       = match_network_connection up_ep_name tsf acc (with_tag "ms_ptp" nc)
    /\ match_network_connection up_ep_name tsf acc (with_tag "MsMptpSpec" nc)
       = match_network_connection up_ep_name tsf acc (with_tag "ms_mptp" nc).
Proof.
  intros up_ep_name tsf acc nc. repeat split.
Qed.

(** Under the snake_case tag no SS-MPTP connection is ever recorded. *)
Lemma ss_mptp_snake_case_ignored :
  forall up_ep_name tsf acc nc,
    nc_spec_type nc = Some "ss_mptp" ->
    match_network_connection up_ep_name tsf acc nc = acc.
Proof.
  intros up_ep_name tsf acc nc H.
  unfold match_network_connection. rewrite H. reflexivity.
Qed.

(** ** The write decision *)

Lemma filter_map_app :
  forall (A B : Type) (f : A -> option B) (l1 l2 : list A),
    filter_map f (l1 ++ l2) = filter_map f l1 ++ filter_map f l2.
Proof.
  intros A B f l1 l2. induction l1 as [|x l1 IH]; simpl.
  - reflexivity.
  - destruct (f x); simpl; rewrite IH; reflexivity.
Qed.

Lemma updates_app : forall t1 t2, updates (t1 ++ t2) = updates t1 ++ updates t2.
Proof. intros. apply filter_map_app. Qed.

Lemma static_scan_no_update :
  forall entries shard_name, updates (fst (static_scan entries shard_name)) = [].
Proof.
  induction entries as [|entry rest IH]; intro shard_name; simpl.
  - reflexivity.
  - destruct (e_name entry) as [name|].
    + destruct (e_serviceGatewayUserPlane entry) as [value|].
      * destruct (negb (String.eqb name shard_name)); [apply IH | reflexivity].
      * specialize (IH shard_name).
        destruct (static_scan rest shard_name) as [ws r]. exact IH.
    + specialize (IH shard_name).
      destruct (static_scan rest shard_name) as [ws r]. exact IH.
Qed.

Lemma static_mapping_no_update :
  forall config_file shard_name,
    updates (fst (get_static_shard_to_sgup_mapping config_file shard_name)) = [].
Proof.
  intros [| |entries] shard_name; simpl; try reflexivity.
  apply static_scan_no_update.
Qed.

Lemma select_sgup_no_update :
  forall sgups sg_names up_names shard static,
    updates (fst (select_sgup sgups sg_names up_names shard static)) = [].
Proof.
  intros. unfold select_sgup.
  destruct (need_mapping _ _ _); [|reflexivity].
  destruct static as [s|].
  - destruct (negb (str_in s up_names)); reflexivity.
  - destruct (least_loaded _); reflexivity.
Qed.

(** The [update_shard] calls of one shard, read off the decision. *)
Lemma map_shard_updates {order : SetOrder} :
  forall config_file st sg_names up_names tsfs ncs shard,
    updates (fst (map_shard config_file st sg_names up_names tsfs ncs shard))
    = match fp_active shard, decision config_file st sg_names up_names tsfs ncs shard with
      | Some fa, Some d =>
          match fp_desired d with
          | Some fd =>
              if String.eqb fd fa then []
              else [update_params shard (fst d) (snd d)]
          | None => []
          end
      | _, _ => []
      end.
Proof.
  intros. unfold map_shard, decision, fp_active, fp_desired.
  destruct (fingerprint (finger (shard_desired_sgup shard) (shard_desired_nc shard)))
    as [fa|]; [|reflexivity].
  pose proof (static_mapping_no_update config_file (shard_name shard)) as Hws.
  destruct (get_static_shard_to_sgup_mapping config_file (shard_name shard))
    as [ws static]. simpl in Hws. simpl snd.
  pose proof (select_sgup_no_update (service_gateway_user_planes st) sg_names
                up_names shard static) as Hes.
  destruct (select_sgup (service_gateway_user_planes st) sg_names up_names shard static)
    as [es sel]. simpl in Hes. simpl snd.
  destruct sel as [up_name| |]; simpl fst;
    try (rewrite updates_app, Hws, Hes; reflexivity).
  destruct (get_service_gateway_user_plane st up_name) as [u|]; simpl fst;
    try (rewrite updates_app, Hws, Hes; reflexivity).
  simpl snd.
  destruct (fingerprint
              (finger (sgup_name u)
                 (iterate (fst (match_network_connections
                                  (endpoint_name (sgup_default_endpoint u)) tsfs ncs)))))
    as [fd|]; simpl fst; try (rewrite updates_app, Hws, Hes; reflexivity).
  destruct (String.eqb fd fa); simpl.
  - rewrite updates_app, Hws, Hes. reflexivity.
  - rewrite !updates_app, Hws, Hes. reflexivity.
Qed.

(** C10, amended. Take a shard in two snapshots in which the chosen user
    plane has the same name and the matched network connections are
    iterated as the same list of names, the stored desired pair being the
    same too; the snapshots may differ in everything else, such as the
    supported service groups of the chosen user plane or the network
    connection that holds a tsf slot. Then the sweep writes the shard in
    one snapshot exactly when it writes it in the other; when the
    fingerprint of the chosen pair equals that of the stored pair it writes
    in neither; and an update, which is what refreshes the service groups
    and the tsf slots, is issued only when the two fingerprints differ. *)
Theorem write_decision_depends_on_fingerprints {order : SetOrder} :
  forall config_file config_file' st st' sg_names sg_names' up_names up_names'
         tsfs tsfs' ncs ncs' shard shard' d d',
    decision config_file st sg_names up_names tsfs ncs shard = Some d ->
    decision config_file' st' sg_names' up_names' tsfs' ncs' shard' = Some d' ->
    sgup_name (fst d) = sgup_name (fst d') ->
    iterate (fst (snd d)) = iterate (fst (snd d')) ->
    shard_desired_sgup shard = shard_desired_sgup shard' ->
    shard_desired_nc shard = shard_desired_nc shard' ->
    (updates (fst (map_shard config_file st sg_names up_names tsfs ncs shard)) = []
     <-> updates (fst (map_shard config_file' st' sg_names' up_names' tsfs' ncs' shard')) = [])
    /\ (fp_desired d = fp_active shard ->
        updates (fst (map_shard config_file st sg_names up_names tsfs ncs shard)) = []
        /\ updates (fst (map_shard config_file' st' sg_names' up_names' tsfs' ncs' shard')) = [])
    /\ (forall p,
          In p (updates (fst (map_shard config_file st sg_names up_names tsfs ncs shard))) ->
          fp_desired d <> fp_active shard).
Proof.
  intros config_file config_file' st st' sg_names sg_names' up_names up_names'
         tsfs tsfs' ncs ncs' shard shard' d d' Hd Hd' Hname Hncs Hup Hnc.
  rewrite !map_shard_updates, Hd, Hd'.
  assert (Hfa : fp_active shard' = fp_active shard).
  { unfold fp_active. rewrite Hup, Hnc. reflexivity. }
  assert (Hfd : fp_desired d' = fp_desired d).
  { unfold fp_desired. rewrite Hname, Hncs. reflexivity. }
  rewrite Hfa, Hfd.
  destruct (fp_active shard) as [fa|];
    [|split; [split; reflexivity | split; [split; reflexivity | intros p []]]].
  destruct (fp_desired d) as [fd|];
    [|split; [split; reflexivity | split; [split; reflexivity | intros p []]]].
  destruct (String.eqb fd fa) eqn:E.
  - split; [split; reflexivity | split; [split; reflexivity | intros p []]].
  - split; [split; intro H; discriminate H|]. split.
    + intro H. injection H as H. subst fd. rewrite String.eqb_refl in E. discriminate E.
    + intros p _ H. injection H as H. subst fd. rewrite String.eqb_refl in E.
      discriminate E.
Qed.

Lemma write_decision_depends_on_fingerprints_witness :
  shards (after_map_shards (order := insertion_order) NoFile unbound_snapshot)
  = [bound_shard]
  /\ decision NoFile snapshot_one ["sg1"] ["A"] two_tsfs [nc1_multi; nc2_single] bound_shard
     = Some decision_one
  /\ decision NoFile snapshot_two ["sg1"] ["A"] two_tsfs [nc2_single; nc1_multi] bound_shard
     = Some decision_two
  /\ fp_desired (order := insertion_order) decision_one = fp_active bound_shard
  /\ updates (fst (map_shard (order := insertion_order) NoFile snapshot_one ["sg1"] ["A"]
                     two_tsfs [nc1_multi; nc2_single] bound_shard)) = []
  /\ updates (fst (map_shard (order := insertion_order) NoFile snapshot_two ["sg1"] ["A"]
                     two_tsfs [nc2_single; nc1_multi] bound_shard)) = [].
Proof.
  assert (H0 : shards (after_map_shards (order := insertion_order) NoFile unbound_snapshot)
               = [bound_shard])
    by (vm_compute; reflexivity).
  assert (H1 : decision NoFile snapshot_one ["sg1"] ["A"] two_tsfs
                 [nc1_multi; nc2_single] bound_shard = Some decision_one)
    by (vm_compute; reflexivity).
  assert (H2 : decision NoFile snapshot_two ["sg1"] ["A"] two_tsfs
                 [nc2_single; nc1_multi] bound_shard = Some decision_two)
    by (vm_compute; reflexivity).
  assert (H3 : fp_desired (order := insertion_order) decision_one = fp_active bound_shard)
    by (vm_compute; reflexivity).
  split; [exact H0|]. split; [exact H1|]. split; [exact H2|]. split; [exact H3|].
  exact (proj1 (proj2 (write_decision_depends_on_fingerprints (order := insertion_order)
                         _ _ _ _ _ _ _ _ _ _ _ _ _ _ _ _
                         H1 H2 eq_refl eq_refl eq_refl eq_refl)) H3).
Defined.

(** C10 as stated fails for the slot of a traffic steering function. The
    network connections [nc1] and [nc2] both connect [t1] to [A]; the shard
    is as the sweep left it with [nc1] first in the store, and a further
    sweep writes nothing. With [nc2] first the chosen user plane and the
    set of matched names are the same, [nc1] instead of [nc2] holds the
    slot of [t1], and [nc2] is the name added to the set first. In a
    process whose hash table lists the two names in the order of insertion
    (CPython 3.11 started with PYTHONHASHSEED=13 is one) the joined string
    changes from [A/nc1,nc2] to [A/nc2,nc1], and the sweep writes the
    shard. *)
Lemma slot_change_triggers_write :
  shards (after_map_shards (order := insertion_order) NoFile swap_unbound) = [swap_shard]
  /\ map_shards (order := insertion_order) NoFile swap_before = ([], Completed)
  /\ decision NoFile swap_before ["sg1"] ["A"] (traffic_steering_functions swap_before)
       (network_connections swap_before) swap_shard
     = Some (plane_A ["internet"], (["nc1"; "nc2"], [("t1", "nc2")]))
  /\ decision NoFile swap_after ["sg1"] ["A"] (traffic_steering_functions swap_after)
       (network_connections swap_after) swap_shard
     = Some (plane_A ["internet"], (["nc2"; "nc1"], [("t1", "nc1")]))
  /\ map_shards (order := insertion_order) NoFile swap_after
     = ([EvUpdateShard
           (mkUpdate "s" (Some "A") (Some ["nc2"; "nc1"]) (Some [("t1", "nc1")])
              (Some ["internet"]) (Some ["10.0.0.0/24"]) (Some "replace"))],
        Completed).
Proof. repeat split; vm_compute; reflexivity. Qed.

(** ** Least-loaded selection *)

Lemma str_in_In : forall s l, str_in s l = true <-> In s l.
Proof.
  intros s l. unfold str_in. rewrite existsb_exists. split.
  - intros [x [Hin Heq]]. apply String.eqb_eq in Heq. subst x. exact Hin.
  - intro Hin. exists s. split; [exact Hin | apply String.eqb_refl].
Qed.

Lemma str_in_false : forall s l, str_in s l = false <-> ~ In s l.
Proof.
  intros s l. rewrite <- str_in_In. destruct (str_in s l); split; intro H.
  - discriminate H.
  - exfalso. apply H. reflexivity.
  - intro H'. discriminate H'.
  - reflexivity.
Qed.







Lemma NoDup_map_filter :
  forall (A B : Type) (f : A -> B) (p : A -> bool) (l : list A),
    NoDup (map f l) -> NoDup (map f (filter p l)).
Proof.
  intros A B f p. induction l as [|x l IH]; intro H; simpl.
  - constructor.
  - inversion H as [|y l' Hnotin Hnd]; subst.
    destruct (p x); simpl.
    + constructor; [|apply IH; exact Hnd].
      intro Hin. apply Hnotin. apply in_map_iff in Hin.
      destruct Hin as [z [Hz Hin]]. apply filter_In in Hin.
      apply in_map_iff. exists z. split; [exact Hz | apply Hin].
    + apply IH. exact Hnd.
Qed.




(** *** Python's quotient against the exact quotient *)






























Example least_loaded_pick :
  select_sgup (service_gateway_user_planes three_planes) ["sg1"] ["A"; "B"; "C"]
    (sample_shard "s" "" []) None
  = ([], Selected "B").
Proof. vm_compute. reflexivity. Qed.

(** ** The trace of a sweep and the store after it *)

Lemma static_scan_warnings :
  forall entries shard_name, Forall is_warning (fst (static_scan entries shard_name)).
Proof.
  induction entries as [|entry rest IH]; intro shard_name; simpl.
  - constructor.
  - destruct (e_name entry) as [name|].
    + destruct (e_serviceGatewayUserPlane entry) as [value|].
      * destruct (negb (String.eqb name shard_name)); [apply IH | constructor].
      * specialize (IH shard_name).
        destruct (static_scan rest shard_name) as [ws r].
        constructor; [eexists; reflexivity | exact IH].
    + specialize (IH shard_name).
      destruct (static_scan rest shard_name) as [ws r].
      constructor; [eexists; reflexivity | exact IH].
Qed.

Lemma static_mapping_warnings :
  forall config_file shard_name,
    Forall is_warning (fst (get_static_shard_to_sgup_mapping config_file shard_name)).
Proof.
  intros [| |entries] shard_name; simpl; try constructor.
  apply static_scan_warnings.
Qed.

Lemma select_sgup_warnings :
  forall sgups sg_names up_names shard static,
    Forall is_warning (fst (select_sgup sgups sg_names up_names shard static)).
Proof.
  intros. unfold select_sgup.
  destruct (need_mapping _ _ _); [|constructor].
  destruct static as [s|].
  - destruct (negb (str_in s up_names)); repeat constructor. eexists; reflexivity.
  - destruct (least_loaded _); repeat constructor. eexists; reflexivity.
Qed.

Lemma warnings_sweep_events : forall t, Forall is_warning t -> Forall sweep_event t.
Proof.
  intros t H. eapply Forall_impl; [|exact H]. intros e He. left. exact He.
Qed.

Lemma map_shard_sweep_events {order : SetOrder} :
  forall config_file st sg_names up_names tsfs ncs shard,
    Forall sweep_event
      (fst (map_shard config_file st sg_names up_names tsfs ncs shard)).
Proof.
  intros. unfold map_shard.
  destruct (fingerprint _) as [fa|]; [|constructor].
  pose proof (static_mapping_warnings config_file (shard_name shard)) as Hws.
  destruct (get_static_shard_to_sgup_mapping config_file (shard_name shard))
    as [ws static]. simpl in Hws.
  pose proof (select_sgup_warnings (service_gateway_user_planes st) sg_names
                up_names shard static) as Hes.
  destruct (select_sgup (service_gateway_user_planes st) sg_names up_names shard static)
    as [es sel]. simpl in Hes.
  apply warnings_sweep_events in Hws. apply warnings_sweep_events in Hes.
  assert (Hboth : Forall sweep_event (ws ++ es)) by (apply Forall_app; split; assumption).
  destruct sel as [up_name| |]; simpl; try exact Hboth.
  destruct (get_service_gateway_user_plane st up_name) as [u|]; simpl; try exact Hboth.
  destruct (fingerprint _) as [fd|]; simpl; try exact Hboth.
  destruct (negb (String.eqb fd fa)); simpl; try exact Hboth.
  apply Forall_app. split; [exact Hws|]. apply Forall_app. split; [exact Hes|].
  constructor; [|constructor]. right. eexists; reflexivity.
Qed.

Lemma shard_loop_sweep_events :
  forall body l,
    (forall shard, Forall sweep_event (fst (body shard))) ->
    Forall sweep_event (fst (shard_loop body l)).
Proof.
  intros body l Hbody. induction l as [|h r IH]; simpl.
  - constructor.
  - specialize (Hbody h). destruct (body h) as [es flow]. simpl in Hbody.
    destruct flow; simpl; try exact Hbody.
    destruct (shard_loop body r) as [es' x]. simpl in *.
    apply Forall_app. split; assumption.
Qed.

Lemma apply_events_sweep :
  forall t st,
    Forall sweep_event t ->
    apply_events st t
    = mkStore (service_gateways st) (service_gateway_user_planes st)
        (map (apply_updates (updates t)) (shards st))
        (traffic_steering_functions st) (network_connections st).
Proof.
  unfold apply_events.
  induction t as [|e t IH]; intros st Ht.
  - simpl. unfold apply_updates. simpl. rewrite map_id. destruct st; reflexivity.
  - inversion Ht as [|e' t' He Ht']; subst. simpl fold_left.
    rewrite IH by exact Ht'.
    destruct He as [[w Hw] | [p Hp]]; subst e; simpl.
    + reflexivity.
    + rewrite map_map. reflexivity.
Qed.

Lemma update_shard_name :
  forall p shard, shard_name (update_shard p shard) = shard_name shard.
Proof.
  intros p shard. unfold update_shard.
  destruct (String.eqb (shard_name shard) (u_name p)); reflexivity.
Qed.

Lemma apply_updates_name :
  forall us shard, shard_name (apply_updates us shard) = shard_name shard.
Proof.
  unfold apply_updates. induction us as [|p us IH]; intro shard; simpl.
  - reflexivity.
  - rewrite IH. apply update_shard_name.
Qed.

Lemma apply_updates_app :
  forall us1 us2 shard,
    apply_updates (us1 ++ us2) shard = apply_updates us2 (apply_updates us1 shard).
Proof.
  intros. unfold apply_updates. apply fold_left_app.
Qed.

(** Updates addressed to other shards leave a shard as it is. *)
Lemma apply_updates_other :
  forall us shard,
    (forall p, In p us -> u_name p <> shard_name shard) ->
    apply_updates us shard = shard.
Proof.
  unfold apply_updates. induction us as [|p us IH]; intros shard H; simpl.
  - reflexivity.
  - assert (Hp : update_shard p shard = shard).
    { unfold update_shard.
      destruct (String.eqb (shard_name shard) (u_name p)) eqn:E; [|reflexivity].
      apply String.eqb_eq in E. exfalso. apply (H p); [left; reflexivity | symmetry; exact E]. }
    rewrite Hp. apply IH. intros q Hq. apply H. right. exact Hq.
Qed.

Lemma get_sgup_known :
  forall st name,
    In name (map sgup_name (service_gateway_user_planes st)) ->
    exists u, get_service_gateway_user_plane st name = Some u.
Proof.
  intros st name Hin. unfold get_service_gateway_user_plane.
  destruct (find _ _) as [u|] eqn:E; [exists u; reflexivity|].
  apply in_map_iff in Hin. destruct Hin as [u [Hname Hin]].
  pose proof (find_none _ _ E u Hin) as Hnone. simpl in Hnone.
  rewrite Hname, String.eqb_refl in Hnone. discriminate Hnone.
Qed.

Lemma map_shard_update_names {order : SetOrder} :
  forall config_file st sg_names up_names tsfs ncs shard p,
    In p (updates (fst (map_shard config_file st sg_names up_names tsfs ncs shard))) ->
    u_name p = shard_name shard.
Proof.
  intros config_file st sg_names up_names tsfs ncs shard p.
  rewrite map_shard_updates.
  destruct (fp_active shard) as [fa|]; [|intros []].
  destruct (decision _ _ _ _ _ _ _) as [d|]; [|intros []].
  destruct (fp_desired d) as [fd|]; [|intros []].
  destruct (String.eqb fd fa); [intros []|].
  intros [H|[]]. subst p. reflexivity.
Qed.

(** A shard at which the loop stops has not been written. *)
Lemma map_shard_stop_no_update {order : SetOrder} :
  forall config_file st sg_names up_names tsfs ncs shard,
    snd (map_shard config_file st sg_names up_names tsfs ncs shard) <> Next ->
    updates (fst (map_shard config_file st sg_names up_names tsfs ncs shard)) = [].
Proof.
  intros config_file st sg_names up_names tsfs ncs shard.
  rewrite map_shard_updates. unfold map_shard, decision, fp_active, fp_desired.
  destruct (fingerprint (finger (shard_desired_sgup shard) (shard_desired_nc shard)))
    as [fa|]; [|reflexivity].
  destruct (get_static_shard_to_sgup_mapping config_file (shard_name shard))
    as [ws static]. simpl snd.
  destruct (select_sgup (service_gateway_user_planes st) sg_names up_names shard static)
    as [es sel]. simpl snd.
  destruct sel as [up_name| |]; try reflexivity.
  destruct (get_service_gateway_user_plane st up_name) as [u|]; try reflexivity.
  simpl fst. simpl snd.
  destruct (fingerprint _) as [fd|]; try reflexivity.
  destruct (String.eqb fd fa); simpl; intro H; [reflexivity|].
  exfalso. apply H. reflexivity.
Qed.

Lemma shard_loop_update_names :
  forall body l p,
    (forall shard q, In q (updates (fst (body shard))) -> u_name q = shard_name shard) ->
    In p (updates (fst (shard_loop body l))) ->
    exists shard, In shard l /\ u_name p = shard_name shard.
Proof.
  intros body l p Hbody. induction l as [|h r IH]; simpl.
  - intros [].
  - pose proof (Hbody h) as Hh. destruct (body h) as [es flow]. simpl in Hh.
    destruct flow; simpl.
    + destruct (shard_loop body r) as [es' x]. simpl in *.
      rewrite updates_app. intro Hin. apply in_app_or in Hin.
      destruct Hin as [Hin|Hin].
      * exists h. split; [left; reflexivity | apply Hh; exact Hin].
      * destruct (IH Hin) as [s [Hs Hn]]. exists s. split; [right; exact Hs | exact Hn].
    + intro Hin. exists h. split; [left; reflexivity | apply Hh; exact Hin].
    + intro Hin. exists h. split; [left; reflexivity | apply Hh; exact Hin].
Qed.

(** The store reaches [map_shard] through its user planes only. *)
Lemma map_shard_store {order : SetOrder} :
  forall config_file st st' sg_names up_names tsfs ncs shard,
    service_gateway_user_planes st' = service_gateway_user_planes st ->
    map_shard config_file st' sg_names up_names tsfs ncs shard
    = map_shard config_file st sg_names up_names tsfs ncs shard.
Proof.
  intros. unfold map_shard, get_service_gateway_user_plane. rewrite H. reflexivity.
Qed.

(** The shard as the store holds it after the update of a decision. *)
Lemma update_shard_decision {order : SetOrder} :
  forall shard u m,
    shard_name (update_shard (update_params shard u m) shard) = shard_name shard
    /\ shard_desired_sgup (update_shard (update_params shard u m) shard) = sgup_name u
    /\ shard_desired_nc (update_shard (update_params shard u m) shard) = iterate (fst m).
Proof.
  intros shard u m. unfold update_shard, update_params. simpl.
  rewrite String.eqb_refl. simpl. repeat split.
Qed.

(** Once written, a decision is found again: the user plane chosen is
    retained and the fingerprint of the stored state is the one written. *)
Lemma decision_stable {order : SetOrder} :
  forall config_file st sg_names tsfs ncs shard d,
    decision config_file st sg_names (map sgup_name (service_gateway_user_planes st))
      tsfs ncs shard = Some d ->
    decision config_file st sg_names (map sgup_name (service_gateway_user_planes st))
      tsfs ncs (update_shard (update_params shard (fst d) (snd d)) shard) = Some d
    /\ fp_active (update_shard (update_params shard (fst d) (snd d)) shard) = fp_desired d.
Proof.
  intros config_file st sg_names tsfs ncs shard [u m] Hd. simpl fst. simpl snd.
  destruct (update_shard_decision shard u m) as [Hname [Hup Hnc]].
  split.
  - unfold decision in *. rewrite Hname.
    destruct (get_static_shard_to_sgup_mapping config_file (shard_name shard))
      as [ws static]. simpl snd in *.
    destruct (snd (select_sgup (service_gateway_user_planes st) sg_names
                     (map sgup_name (service_gateway_user_planes st)) shard static))
      as [n| |] eqn:Hsel; try discriminate Hd.
    destruct (get_service_gateway_user_plane st n) as [u'|] eqn:Hget; try discriminate Hd.
    injection Hd as Hu Hm. subst u'.
    destruct (get_sgup_some _ _ _ Hget) as [Hn Hin].
    assert (Hknown : str_in n (map sgup_name (service_gateway_user_planes st)) = true).
    { apply str_in_In. rewrite <- Hn. apply in_map. exact Hin. }
    assert (Hstatic : match static with
                      | Some s => negb (String.eqb n s)
                      | None => false
                      end = false).
    { destruct static as [s|]; [|reflexivity].
      unfold select_sgup in Hsel.
      destruct (need_mapping (Some s) (shard_desired_sgup shard)
                  (map sgup_name (service_gateway_user_planes st))) eqn:Hneed.
      - destruct (negb (str_in s (map sgup_name (service_gateway_user_planes st))));
          simpl in Hsel; try discriminate Hsel.
        injection Hsel as Hs. subst n. rewrite String.eqb_refl. reflexivity.
      - simpl in Hsel. injection Hsel as Hs. subst n.
        unfold need_mapping in Hneed. apply orb_false_iff in Hneed. apply Hneed. }
    unfold select_sgup. rewrite Hup, Hn. unfold need_mapping.
    rewrite Hstatic, Hknown. simpl. rewrite Hget, Hm. reflexivity.
  - unfold fp_active, fp_desired. rewrite Hup, Hnc. reflexivity.
Qed.

(** One shard, swept again after its own update: nothing is written. *)
Lemma map_shard_idempotent {order : SetOrder} :
  forall config_file st sg_names tsfs ncs shard,
    updates
      (fst (map_shard config_file st sg_names
              (map sgup_name (service_gateway_user_planes st)) tsfs ncs
              (apply_updates
                 (updates (fst (map_shard config_file st sg_names
                                  (map sgup_name (service_gateway_user_planes st))
                                  tsfs ncs shard)))
                 shard)))
    = [].
Proof.
  intros config_file st sg_names tsfs ncs shard.
  rewrite (map_shard_updates config_file st sg_names _ tsfs ncs shard).
  destruct (fp_active shard) as [fa|] eqn:Hfa;
    [|simpl; rewrite map_shard_updates, Hfa; reflexivity].
  destruct (decision config_file st sg_names _ tsfs ncs shard) as [d|] eqn:Hd;
    [|simpl; rewrite map_shard_updates, Hfa, Hd; reflexivity].
  destruct (fp_desired d) as [fd|] eqn:Hfd;
    [|simpl; rewrite map_shard_updates, Hfa, Hd, Hfd; reflexivity].
  destruct (String.eqb fd fa) eqn:E.
  - simpl. rewrite map_shard_updates, Hfa, Hd, Hfd, E. reflexivity.
  - unfold apply_updates. simpl fold_left.
    destruct (decision_stable _ _ _ _ _ _ _ Hd) as [Hd' Hfa'].
    rewrite map_shard_updates, Hd', Hfa', Hfd, String.eqb_refl. reflexivity.
Qed.

(** ** Two sweeps in a row *)

Section LoopTwice.

Variable body : Shard -> list Event * Flow.

Hypothesis body_names :
  forall shard p, In p (updates (fst (body shard))) -> u_name p = shard_name shard.
Hypothesis body_idempotent :
  forall shard,
    updates (fst (body (apply_updates (updates (fst (body shard))) shard))) = [].
Hypothesis body_stop :
  forall shard, snd (body shard) <> Next -> updates (fst (body shard)) = [].

Lemma shard_loop_idempotent :
  forall l,
    NoDup (map shard_name l) ->
    updates
      (fst (shard_loop body
              (map (apply_updates (updates (fst (shard_loop body l)))) l)))
    = [].
Proof.
  induction l as [|h r IH]; intro Hnd.
  - reflexivity.
  - inversion Hnd as [|n ns Hnotin Hnd']; subst.
    simpl shard_loop at 2.
    pose proof (body_names h) as Hnames.
    pose proof (body_idempotent h) as Hidem.
    pose proof (body_stop h) as Hstop.
    destruct (body h) as [es flow] eqn:Hb. simpl in Hnames, Hidem, Hstop.
    assert (Hid : forall l', map (apply_updates []) l' = l').
    { intro l'. rewrite <- (map_id l') at 2. apply map_ext. reflexivity. }
    destruct flow.
    + pose proof (shard_loop_update_names body r) as Hrest.
      destruct (shard_loop body r) as [es' x] eqn:Hr. simpl fst in *.
      rewrite updates_app. simpl map.
      assert (Hh : apply_updates (updates es ++ updates es') h
                   = apply_updates (updates es) h).
      { rewrite apply_updates_app. apply apply_updates_other.
        intros p Hp Heq. rewrite apply_updates_name in Heq.
        destruct (Hrest p body_names Hp) as [s [Hs Hn]].
        apply Hnotin. rewrite <- Heq, Hn. apply in_map. exact Hs. }
      assert (Hr' : map (apply_updates (updates es ++ updates es')) r
                    = map (apply_updates (updates es')) r).
      { apply map_ext_in. intros s Hs. rewrite apply_updates_app.
        f_equal. apply apply_updates_other.
        intros p Hp Heq. apply Hnotin. rewrite <- (Hnames p Hp), Heq.
        apply in_map. exact Hs. }
      rewrite Hh, Hr'. simpl shard_loop.
      destruct (body (apply_updates (updates es) h)) as [es2 flow2]. simpl in Hidem.
      destruct flow2; simpl; try exact Hidem.
      specialize (IH Hnd').
      destruct (shard_loop body (map (apply_updates (updates es')) r)) as [es3 x3].
      simpl in *. rewrite updates_app, Hidem, IH. reflexivity.
    + simpl fst. rewrite Hstop by discriminate. rewrite Hid.
      simpl. rewrite Hb. simpl. apply Hstop. discriminate.
    + simpl fst. rewrite Hstop by discriminate. rewrite Hid.
      simpl. rewrite Hb. simpl. apply Hstop. discriminate.
Qed.

End LoopTwice.

Lemma map_shards_sweep_events {order : SetOrder} :
  forall config_file st, Forall sweep_event (fst (map_shards config_file st)).
Proof.
  intros config_file st. unfold map_shards.
  destruct (List.length (service_gateway_user_planes st) =? 0)%nat.
  - simpl. constructor; [left; eexists; reflexivity|].
    apply Forall_forall. intros e He. apply in_map_iff in He.
    destruct He as [h [He _]]. right. eexists. symmetry. exact He.
  - apply shard_loop_sweep_events. intro shard. apply map_shard_sweep_events.
Qed.

(** C4, amended. While the snapshot has a user plane and the shards bear
    distinct names, a second sweep over the store that the first sweep
    left, nothing else having written to it, issues no [update_shard]. *)
Theorem map_shards_twice {order : SetOrder} :
  forall config_file st,
    service_gateway_user_planes st <> [] ->
    NoDup (map shard_name (shards st)) ->
    updates (fst (map_shards config_file (after_map_shards config_file st))) = [].
Proof.
  intros config_file st Hsgups Hnd.
  unfold after_map_shards.
  rewrite apply_events_sweep by apply map_shards_sweep_events.
  unfold map_shards at 1. simpl.
  destruct (service_gateway_user_planes st) as [|u0 us] eqn:Hus;
    [exfalso; apply Hsgups; reflexivity|].
  simpl Nat.eqb. cbv iota.
  unfold map_shards. rewrite Hus. simpl Nat.eqb. cbv iota. rewrite <- Hus.
  set (body := map_shard config_file st (map sg_name (service_gateways st))
                 (map sgup_name (service_gateway_user_planes st))
                 (traffic_steering_functions st) (network_connections st)).
  rewrite (shard_loop_ext _ body).
  - apply shard_loop_idempotent.
    + intros shard p. apply map_shard_update_names.
    + intro shard. apply map_shard_idempotent.
    + intro shard. apply map_shard_stop_no_update.
    + exact Hnd.
  - intro shard. apply map_shard_store. reflexivity.
Qed.

Lemma map_shards_twice_witness :
  updates (fst (map_shards (order := insertion_order) pin_s_to_A store_two_shards))
  = [mkUpdate "s" (Some "A") (Some ["nc-a"]) (Some [("t1", "nc-a")])
       (Some ["internet"]) (Some ["10.0.0.0/24"]) (Some "replace");
     mkUpdate "t" (Some "B") (Some ["nc-b"]) (Some [("t1", "nc-b")])
       (Some ["internet"]) (Some ["10.0.0.0/24"]) (Some "replace")]
  /\ updates
       (fst (map_shards (order := insertion_order) pin_s_to_A
               (after_map_shards (order := insertion_order) pin_s_to_A
                  store_two_shards)))
     = [].
Proof.
  split.
  - vm_compute. reflexivity.
  - apply map_shards_twice.
    + discriminate.
    + simpl. repeat constructor; simpl; intuition discriminate.
Defined.

(** C4 as stated fails without user planes: the reset update leaves the
    desired user plane of [s1] in place, so every further sweep issues the
    same update again, although the store no longer changes. The branch
    builds no set, so that it goes this way in every process. *)
Lemma reset_is_repeated :
  updates (fst (map_shards (order := insertion_order) NoFile empty_fleet))
  = [mkUpdate "s1" None None None None (Some ["10.0.0.0/24"]) (Some "replace")]
  /\ shards (after_map_shards (order := insertion_order) NoFile empty_fleet)
     = [sample_shard "s1" "u-old" []; sample_shard "s2" "" []]
  /\ updates
       (fst (map_shards (order := insertion_order) NoFile
               (after_map_shards (order := insertion_order) NoFile empty_fleet)))
     = [mkUpdate "s1" None None None None (Some ["10.0.0.0/24"]) (Some "replace")]
  /\ after_map_shards (order := insertion_order) NoFile
       (after_map_shards (order := insertion_order) NoFile empty_fleet)
     = after_map_shards (order := insertion_order) NoFile empty_fleet.
Proof. repeat split; vm_compute; reflexivity. Qed.

(** ** Static pins *)

Lemma shard_loop_completed :
  forall body l,
    snd (shard_loop body l) = Completed ->
    forall shard, In shard l -> snd (body shard) = Next.
Proof.
  intros body. induction l as [|h r IH]; intros Hc shard Hin; [destruct Hin|].
  simpl in Hc. destruct (body h) as [es flow] eqn:Hb.
  destruct flow; try discriminate Hc.
  destruct (shard_loop body r) as [es' x]. simpl in *.
  destruct Hin as [Hin|Hin].
  - subst shard. rewrite Hb. reflexivity.
  - apply IH; assumption.
Qed.

(** After a loop that ran to its end, a shard of the snapshot has been
    changed by the updates of its own turn only. *)
Lemma apply_updates_own :
  forall body l,
    (forall shard p, In p (updates (fst (body shard))) -> u_name p = shard_name shard) ->
    NoDup (map shard_name l) ->
    snd (shard_loop body l) = Completed ->
    forall shard,
      In shard l ->
      apply_updates (updates (fst (shard_loop body l))) shard
      = apply_updates (updates (fst (body shard))) shard.
Proof.
  intros body l Hnames. induction l as [|h r IH]; intros Hnd Hc shard Hin;
    [destruct Hin|].
  inversion Hnd as [|n ns Hnotin Hnd']; subst.
  pose proof (shard_loop_update_names body r) as Hrest.
  simpl in Hc |- *. pose proof (Hnames h) as Hh.
  destruct (body h) as [es flow] eqn:Hb. simpl in Hh.
  destruct flow; try discriminate Hc.
  destruct (shard_loop body r) as [es' x] eqn:Hr. simpl in *.
  rewrite updates_app, apply_updates_app.
  destruct Hin as [Hin|Hin].
  - subst shard. rewrite Hb. simpl.
    apply apply_updates_other. intros p Hp Heq.
    rewrite apply_updates_name in Heq.
    destruct (Hrest p Hnames Hp) as [s [Hs Hn]].
    apply Hnotin. rewrite <- Heq, Hn. apply in_map. exact Hs.
  - rewrite (apply_updates_other (updates es) shard).
    + apply IH; assumption.
    + intros p Hp Heq. apply Hnotin. rewrite <- (Hh p Hp), Heq.
      apply in_map. exact Hin.
Qed.

Lemma NoDup_map_eq :
  forall (A B : Type) (f : A -> B) (l : list A) (a b : A),
    NoDup (map f l) -> In a l -> In b l -> f a = f b -> a = b.
Proof.
  intros A B f. induction l as [|x l IH]; intros a b Hnd Ha Hb Heq; [destruct Ha|].
  inversion Hnd as [|y l' Hnotin Hnd']; subst.
  destruct Ha as [Ha|Ha]; destruct Hb as [Hb|Hb].
  - congruence.
  - subst x. exfalso. apply Hnotin. rewrite Heq. apply in_map. exact Hb.
  - subst x. exfalso. apply Hnotin. rewrite <- Heq. apply in_map. exact Ha.
  - apply IH; assumption.
Qed.

(** A shard that the loop passes with a decision has both fingerprints. *)
Lemma map_shard_next_fingerprints {order : SetOrder} :
  forall config_file st sg_names up_names tsfs ncs shard d,
    snd (map_shard config_file st sg_names up_names tsfs ncs shard) = Next ->
    decision config_file st sg_names up_names tsfs ncs shard = Some d ->
    exists fa fd, fp_active shard = Some fa /\ fp_desired d = Some fd.
Proof.
  intros config_file st sg_names up_names tsfs ncs shard d.
  unfold map_shard, decision, fp_active, fp_desired.
  destruct (fingerprint (finger (shard_desired_sgup shard) (shard_desired_nc shard)))
    as [fa|]; [|discriminate].
  destruct (get_static_shard_to_sgup_mapping config_file (shard_name shard))
    as [ws static]. simpl snd.
  destruct (select_sgup (service_gateway_user_planes st) sg_names up_names shard static)
    as [es sel]. simpl snd.
  destruct sel as [up_name| |]; try discriminate.
  destruct (get_service_gateway_user_plane st up_name) as [u|]; try discriminate.
  intros Hflow Hd. injection Hd as Hd. subst d. simpl fst. simpl snd.
  destruct (fingerprint _) as [fd|]; [|discriminate Hflow].
  exists fa, fd. split; reflexivity.
Qed.

(** With a pin that names a user plane of the snapshot, the user plane
    decided on is the pinned one. *)
Lemma decision_pinned :
  forall config_file st sg_names tsfs ncs shard P d,
    snd (get_static_shard_to_sgup_mapping config_file (shard_name shard)) = Some P ->
    In P (map sgup_name (service_gateway_user_planes st)) ->
    decision config_file st sg_names (map sgup_name (service_gateway_user_planes st))
      tsfs ncs shard = Some d ->
    sgup_name (fst d) = P.
Proof.
  intros config_file st sg_names tsfs ncs shard P d Hpin HP Hd.
  unfold decision in Hd. rewrite Hpin in Hd.
  apply str_in_In in HP.
  assert (Hsel : snd (select_sgup (service_gateway_user_planes st) sg_names
                        (map sgup_name (service_gateway_user_planes st)) shard (Some P))
                 = Selected P).
  { unfold select_sgup.
    destruct (need_mapping (Some P) (shard_desired_sgup shard)
                (map sgup_name (service_gateway_user_planes st))) eqn:Hneed.
    - rewrite HP. reflexivity.
    - unfold need_mapping in Hneed. apply orb_false_iff in Hneed.
      destruct Hneed as [Heq _]. apply negb_false_iff in Heq.
      apply String.eqb_eq in Heq. rewrite Heq. reflexivity. }
  rewrite Hsel in Hd.
  destruct (get_service_gateway_user_plane st P) as [u|] eqn:Hget; [|discriminate Hd].
  injection Hd as Hd. subst d. simpl. apply (get_sgup_some _ _ _ Hget).
Qed.

(** C6, amended. Let the shards bear distinct names and let the sweep run
    its shard loop to the end. For a shard whose pin [P] names a user plane
    of the snapshot, the desired user plane stored after the sweep is [P],
    provided the stored one was [P] already or the fingerprint of the
    decision differs from the fingerprint of the stored desired state (a
    write is issued on no other condition). *)
Theorem static_pin_honored {order : SetOrder} :
  forall config_file st shard P d,
    snd (map_shards config_file st) = Completed ->
    NoDup (map shard_name (shards st)) ->
    In shard (shards st) ->
    snd (get_static_shard_to_sgup_mapping config_file (shard_name shard)) = Some P ->
    In P (map sgup_name (service_gateway_user_planes st)) ->
    decision config_file st (map sg_name (service_gateways st))
      (map sgup_name (service_gateway_user_planes st))
      (traffic_steering_functions st) (network_connections st) shard = Some d ->
    shard_desired_sgup shard = P \/ fp_desired d <> fp_active shard ->
    forall shard',
      In shard' (shards (after_map_shards config_file st)) ->
      shard_name shard' = shard_name shard ->
      shard_desired_sgup shard' = P.
Proof.
  intros config_file st shard P d Hc Hnd Hin Hpin HP Hd Hfp shard' Hin' Hname.
  unfold after_map_shards in Hin'.
  rewrite apply_events_sweep in Hin' by apply map_shards_sweep_events.
  simpl in Hin'. apply in_map_iff in Hin'. destruct Hin' as [h0 [Hh0 Hin0]].
  assert (Hsame : h0 = shard).
  { apply (NoDup_map_eq _ _ shard_name (shards st)); try assumption.
    rewrite <- Hname, <- Hh0, apply_updates_name. reflexivity. }
  subst h0. subst shard'. clear Hname Hin0.
  unfold map_shards in Hc |- *.
  destruct (service_gateway_user_planes st) as [|u0 us] eqn:Hus; [destruct HP|].
  simpl Nat.eqb in Hc |- *. cbv iota in Hc |- *. rewrite <- Hus in *.
  set (body := map_shard config_file st (map sg_name (service_gateways st))
                 (map sgup_name (service_gateway_user_planes st))
                 (traffic_steering_functions st) (network_connections st)) in *.
  rewrite (apply_updates_own body (shards st)); try assumption;
    [|intros s p; apply map_shard_update_names].
  pose proof (shard_loop_completed body (shards st) Hc shard Hin) as Hnext.
  destruct (map_shard_next_fingerprints _ _ _ _ _ _ _ _ Hnext Hd)
    as [fa [fd [Hfa Hfd]]].
  unfold body. rewrite map_shard_updates, Hfa, Hd, Hfd.
  destruct (String.eqb fd fa) eqn:E.
  - simpl. destruct Hfp as [Hold|Hdiff]; [exact Hold|].
    exfalso. apply Hdiff. rewrite Hfa, Hfd. apply String.eqb_eq in E.
    rewrite E. reflexivity.
  - unfold apply_updates. simpl.
    destruct (update_shard_decision shard (fst d) (snd d)) as [_ [Hup _]].
    rewrite Hup. eapply decision_pinned; eassumption.
Qed.

Lemma static_pin_honored_witness :
  snd (map_shards (order := insertion_order) pin_s_to_A store_two_shards) = Completed
  /\ In s_after_sweep
       (shards (after_map_shards (order := insertion_order) pin_s_to_A store_two_shards))
  /\ shard_desired_sgup s_after_sweep = "A".
Proof.
  assert (Hc : snd (map_shards (order := insertion_order) pin_s_to_A store_two_shards) = Completed)
    by (vm_compute; reflexivity).
  assert (Hin' : In s_after_sweep
                   (shards (after_map_shards (order := insertion_order) pin_s_to_A
                              store_two_shards)))
    by (vm_compute; left; reflexivity).
  split; [exact Hc|]. split; [exact Hin'|].
  apply (static_pin_honored (order := insertion_order) pin_s_to_A store_two_shards
           (sample_shard "s" "B" []) "A"
           (sample_sgup "A" "sg1" "ep-A" 10 100, (["nc-a"], [("t1", "nc-a")]))).
  - exact Hc.
  - simpl. repeat constructor; simpl; intuition discriminate.
  - left. reflexivity.
  - reflexivity.
  - left. reflexivity.
  - vm_compute. reflexivity.
  - right. intro H. vm_compute in H. discriminate H.
  - exact Hin'.
  - reflexivity.
Defined.

(** C6 as stated fails when the two fingerprinted strings coincide: the
    shard is bound to [P/a] with no network connection and pinned to [P],
    whose only matching network connection is named [a/]. Both strings
    read [P/a/], so the sweep, which runs to its end, writes nothing and
    the shard stays bound to [P/a]. The set holds one name, so that the
    sweep goes this way in every process ([map_shards_small_sets]). *)
Lemma pin_lost_to_equal_fingers :
  map_shards (order := insertion_order) (Config [pin "s" "P"]) slash_store = ([], Completed)
  /\ snd (get_static_shard_to_sgup_mapping (Config [pin "s" "P"]) "s") = Some "P"
  /\ map sgup_name (service_gateway_user_planes slash_store) = ["P"]
  /\ decision (Config [pin "s" "P"]) slash_store ["sg1"] ["P"]
       (traffic_steering_functions slash_store) (network_connections slash_store)
       (sample_shard "s" "P/a" [])
     = Some (sample_sgup "P" "sg1" "ep-P" 0 100, (["a/"], [("t1", "a/")]))
  /\ finger "P" ["a/"] = finger "P/a" []
  /\ shards (after_map_shards (order := insertion_order) (Config [pin "s" "P"]) slash_store)
     = [sample_shard "s" "P/a" []].
Proof. repeat split; vm_compute; reflexivity. Qed.

(** ** Capacity of a created shard *)





Section Capacity.

Variable ip_address : string -> option IPAddress.
Variable ip_network_hosts : string -> option (list IPAddress).



(** An exclusion that does not parse fails every prefix of the entry. *)
Lemma count_sessions_bad_exclude :
  forall entry,
    ip_addresses ip_address (entry_exclude entry) = None ->
    forall prefixes acc,
      count_sessions ip_address ip_network_hosts entry prefixes acc
      = (map (fun prefix => EvWarning (InvalidPrefix prefix entry)) prefixes, acc).
Proof.
  intros entry HX. induction prefixes as [|prefix rest IH]; intro acc; simpl.
  - reflexivity.
  - unfold hosts_of_prefix. rewrite HX, IH. reflexivity.
Qed.

Lemma count_sessions_warnings :
  forall entry prefixes acc,
    Forall is_warning
      (fst (count_sessions ip_address ip_network_hosts entry prefixes acc)).
Proof.
  intros entry. induction prefixes as [|prefix rest IH]; intro acc; simpl.
  - constructor.
  - destruct (hosts_of_prefix _ _ _ _) as [n|].
    + apply IH.
    + specialize (IH acc).
      destruct (count_sessions ip_address ip_network_hosts entry rest acc) as [ws r].
      constructor; [eexists; reflexivity | exact IH].
Qed.

Lemma warning_not_add_entry :
  forall t entry p, Forall is_warning t -> ~ In (EvAddEntry entry p) t.
Proof.
  intros t entry p H Hin. rewrite Forall_forall in H.
  destruct (H _ Hin) as [w Hw]. discriminate Hw.
Qed.

(** What an "add entry" record of the loop body says of its shard. *)
Lemma create_default_item_add_entry :
  forall virtual_mac existing s entry e p,
    In (EvAddEntry e p)
       (fst (create_default_item ip_address ip_network_hosts virtual_mac existing s entry)) ->
    e = entry
    /\ exists prefixes,
         e_prefixes entry = Some prefixes
         /\ c_prefix p = prefixes
         /\ c_max_session_count p
            = snd (count_sessions ip_address ip_network_hosts entry prefixes 0).
Proof.
  intros virtual_mac existing [st sgup_names] entry e p.
  unfold create_default_item.
  destruct (e_name entry) as [name|]; [|intros [H|[]]; discriminate H].
  destruct (e_prefixes entry) as [prefixes|]; [|intros [H|[]]; discriminate H].
  destruct (str_in name existing); [intros []|].
  pose proof (count_sessions_warnings entry prefixes 0) as Hws.
  destruct (count_sessions ip_address ip_network_hosts entry prefixes 0)
    as [ws max_session_count] eqn:Hcs. simpl in Hws.
  assert (Hadd : forall params,
             In (EvAddEntry e p) (ws ++ [EvAddEntry entry params; EvCreateShard params]) ->
             e = entry /\ p = params).
  { intros params Hin. apply in_app_or in Hin. destruct Hin as [Hin|Hin].
    - exfalso. exact (warning_not_add_entry _ _ _ Hws Hin).
    - destruct Hin as [H|[H|[]]]; [|discriminate H].
      injection H as He Hp. split; congruence. }
  assert (Hgoal : forall params,
             c_prefix params = prefixes ->
             c_max_session_count params = max_session_count ->
             In (EvAddEntry e p) (ws ++ [EvAddEntry entry params; EvCreateShard params]) ->
             e = entry
             /\ exists prefixes0,
                  Some prefixes = Some prefixes0
                  /\ c_prefix p = prefixes0
                  /\ c_max_session_count p
                     = snd (count_sessions ip_address ip_network_hosts entry prefixes0 0)).
  { intros params Hp Hm Hin. destruct (Hadd params Hin) as [He Hpp]. subst p.
    split; [exact He|]. exists prefixes. rewrite Hcs. repeat split; assumption. }
  destruct (is_pinned entry) as [desired_sgup|].
  - destruct (negb (str_in desired_sgup (sgup_names_of st))); simpl fst.
    + intro Hin. apply in_app_or in Hin. destruct Hin as [Hin|[H|[]]].
      * exfalso. exact (warning_not_add_entry _ _ _ Hws Hin).
      * discriminate H.
    + intro Hin. eapply Hgoal; [| |exact Hin]; reflexivity.
  - destruct (if (List.length sgup_names =? 0)%nat then sgup_names_of st else sgup_names)
      as [|head tail]; cbv zeta; simpl fst;
      intro Hin; (eapply Hgoal; [| |exact Hin]; reflexivity).
Qed.

Lemma entry_loop_add_entry :
  forall virtual_mac existing entries s e p,
    In (EvAddEntry e p)
       (fst (entry_loop ip_address ip_network_hosts virtual_mac existing s entries)) ->
    exists prefixes,
      e_prefixes e = Some prefixes
      /\ c_prefix p = prefixes
      /\ c_max_session_count p
         = snd (count_sessions ip_address ip_network_hosts e prefixes 0).
Proof.
  intros virtual_mac existing. induction entries as [|entry rest IH]; intros s e p; simpl.
  - intros [].
  - pose proof (create_default_item_add_entry virtual_mac existing s entry e p) as Hitem.
    destruct (create_default_item ip_address ip_network_hosts virtual_mac existing s entry)
      as [es s'].
    specialize (IH s' e p).
    destruct (entry_loop ip_address ip_network_hosts virtual_mac existing s' rest)
      as [es' s'']. simpl in *.
    intro Hin. apply in_app_or in Hin. destruct Hin as [Hin|Hin].
    + destruct (Hitem Hin) as [He H]. subst e. exact H.
    + apply IH. exact Hin.
Qed.




End Capacity.


(** ** An exclusion that does not parse *)

(** C9. A prefix that does not parse is skipped alone: the entry with the
    prefixes 10.0.0.0/30, 10.0.1.0/33 and 10.0.2.0/30 and the exclusion
    10.0.0.1 gets three sessions and one warning. An exclusion that does
    not parse fails every prefix: the entry with the prefixes 10.0.0.0/30
    and 10.0.1.0/30 and the exclusions 10.0.0.1 and 10.0.0.300 gets a
    warning for each of its two well-formed prefixes and no session at
    all, and its shard is created with [max_session_count = 0]. *)
Theorem bad_exclude_skips_every_prefix :
  count_sessions IPv4.ip_address IPv4.ip_network_hosts entry_bad_prefix
    (entry_prefixes entry_bad_prefix) 0
  = ([EvWarning (InvalidPrefix "10.0.1.0/33" entry_bad_prefix)], 3)
  /\ count_sessions IPv4.ip_address IPv4.ip_network_hosts entry_bad_exclude
       (entry_prefixes entry_bad_exclude) 0
     = ([EvWarning (InvalidPrefix "10.0.0.0/30" entry_bad_exclude);
         EvWarning (InvalidPrefix "10.0.1.0/30" entry_bad_exclude)], 0)
  /\ filter_map (fun e => match e with
                          | EvCreateShard p => Some (c_max_session_count p)
                          | _ => None
                          end)
       (fst (create_default_items IPv4.ip_address IPv4.ip_network_hosts
               (Config [entry_bad_exclude]) "00:00:01:00:00:00" one_plane))
     = [0].
Proof. repeat split; vm_compute; reflexivity. Qed.

(** ** Binding of the shards that are not pinned *)

Lemma unpinned_bindings_warnings :
  forall t, Forall is_warning t -> unpinned_bindings t = [].
Proof.
  induction t as [|e t IH]; intro H; [reflexivity|].
  inversion H as [|e' t' [w Hw] Ht]; subst. simpl. apply IH. exact Ht.
Qed.

Lemma skipn_cons :
  forall (A : Type) (r : nat) (l : list A) (h : A) (t : list A),
    skipn r l = h :: t -> nth_error l r = Some h /\ t = skipn (S r) l.
Proof.
  intros A. induction r as [|r IH]; intros l h t H.
  - destruct l as [|x l]; simpl in H; [discriminate H|].
    injection H as Hx Ht. subst. split; reflexivity.
  - destruct l as [|x l]; simpl in H; [discriminate H|].
    apply IH in H. exact H.
Qed.

Lemma fifo_refill :
  forall names k fifo,
    names <> [] ->
    fifo_inv names k fifo ->
    (if (List.length fifo =? 0)%nat then names else fifo)
    = skipn (Nat.modulo k (List.length names)) names.
Proof.
  intros names k fifo Hne [[Hnil Hk] | [Hcons Hskip]].
  - subst fifo. simpl. rewrite Hk. reflexivity.
  - destruct fifo as [|x fifo]; [exfalso; apply Hcons; reflexivity|].
    simpl. exact Hskip.
Qed.

Lemma fifo_pop :
  forall names k head tail,
    names <> [] ->
    skipn (Nat.modulo k (List.length names)) names = head :: tail ->
    nth_error names (Nat.modulo k (List.length names)) = Some head
    /\ fifo_inv names (S k) tail.
Proof.
  intros names k head tail Hne Hskip.
  assert (Hn : List.length names <> 0%nat).
  { destruct names; [exfalso; apply Hne; reflexivity | discriminate]. }
  destruct (skipn_cons _ _ _ _ _ Hskip) as [Hhead Htail].
  split; [exact Hhead|].
  pose proof (Nat.mod_upper_bound k (List.length names) Hn) as Hlt.
  assert (Hlen : List.length tail
                 = (List.length names - S (Nat.modulo k (List.length names)))%nat).
  { rewrite Htail. apply length_skipn. }
  assert (Hstep : Nat.modulo (S k) (List.length names)
                  = Nat.modulo (S (Nat.modulo k (List.length names))) (List.length names)).
  { replace (S k) with (k + 1)%nat by lia.
    rewrite <- Nat.Div0.add_mod_idemp_l. f_equal. lia. }
  unfold fifo_inv. destruct tail as [|x tail'].
  - left. split; [reflexivity|]. simpl in Hlen.
    rewrite Hstep.
    replace (S (Nat.modulo k (List.length names))) with (List.length names) by lia.
    apply Nat.Div0.mod_same.
  - right. split; [discriminate|]. simpl in Hlen.
    rewrite Hstep, Nat.mod_small by lia. exact Htail.
Qed.

Section RoundRobin.

Variable ip_address : string -> option IPAddress.
Variable ip_network_hosts : string -> option (list IPAddress).

(** One entry either binds no unpinned shard and leaves the invariant as it
    is, or binds one, to the name at position [k mod n]. *)
Lemma create_default_item_round_robin :
  forall virtual_mac existing st fifo entry k,
    sgup_names_of st <> [] ->
    fifo_inv (sgup_names_of st) k fifo ->
    exists es st' fifo',
      create_default_item ip_address ip_network_hosts virtual_mac existing (st, fifo) entry
      = (es, (st', fifo'))
      /\ sgup_names_of st' = sgup_names_of st
      /\ ((unpinned_bindings es = [] /\ fifo_inv (sgup_names_of st) k fifo')
          \/ (unpinned_bindings es
              = [nth_error (sgup_names_of st)
                   (Nat.modulo k (List.length (sgup_names_of st)))]
              /\ fifo_inv (sgup_names_of st) (S k) fifo')).
Proof.
  intros virtual_mac existing st fifo entry k Hne Hinv.
  unfold create_default_item.
  destruct (e_name entry) as [name|];
    [|do 3 eexists; split; [reflexivity|]; split; [reflexivity|]; left; split;
      [reflexivity | exact Hinv]].
  destruct (e_prefixes entry) as [prefixes|];
    [|do 3 eexists; split; [reflexivity|]; split; [reflexivity|]; left; split;
      [reflexivity | exact Hinv]].
  destruct (str_in name existing);
    [do 3 eexists; split; [reflexivity|]; split; [reflexivity|]; left; split;
      [reflexivity | exact Hinv]|].
  pose proof (count_sessions_warnings ip_address ip_network_hosts entry prefixes 0) as Hws.
  destruct (count_sessions ip_address ip_network_hosts entry prefixes 0)
    as [ws max_session_count]. simpl in Hws.
  apply unpinned_bindings_warnings in Hws.
  rewrite (fifo_refill _ _ _ Hne Hinv).
  assert (Hrefilled : fifo_inv (sgup_names_of st) k
                        (skipn (Nat.modulo k (List.length (sgup_names_of st)))
                               (sgup_names_of st))).
  { right. split; [|reflexivity].
    intro Hnil. apply (f_equal (@List.length string)) in Hnil.
    rewrite length_skipn in Hnil. simpl in Hnil.
    assert (Hn : List.length (sgup_names_of st) <> 0%nat).
    { destruct (sgup_names_of st); [exfalso; apply Hne; reflexivity | discriminate]. }
    pose proof (Nat.mod_upper_bound k _ Hn). lia. }
  destruct (is_pinned entry) as [desired_sgup|] eqn:Hpin.
  - destruct (negb (str_in desired_sgup (sgup_names_of st))).
    + do 3 eexists. split; [reflexivity|]. split; [reflexivity|]. left.
      split; [|exact Hrefilled].
      unfold unpinned_bindings in *. rewrite filter_map_app, Hws. reflexivity.
    + do 3 eexists. split; [reflexivity|]. split; [reflexivity|]. left.
      split; [|exact Hrefilled].
      unfold unpinned_bindings in *. rewrite filter_map_app, Hws. simpl.
      rewrite Hpin. reflexivity.
  - destruct (skipn (Nat.modulo k (List.length (sgup_names_of st))) (sgup_names_of st))
      as [|head tail] eqn:Hskip.
    + exfalso. destruct Hrefilled as [[_ Hk] | [Hcons _]].
      * rewrite Hk in Hskip. simpl in Hskip. apply Hne. exact Hskip.
      * apply Hcons. reflexivity.
    + destruct (fifo_pop _ _ _ _ Hne Hskip) as [Hhead Htail].
      do 3 eexists. split; [reflexivity|]. split; [reflexivity|]. right.
      split; [|exact Htail].
      unfold unpinned_bindings in *. rewrite filter_map_app, Hws. simpl.
      rewrite Hpin, Hhead. reflexivity.
Qed.

Lemma entry_loop_round_robin :
  forall virtual_mac existing entries st fifo k,
    sgup_names_of st <> [] ->
    fifo_inv (sgup_names_of st) k fifo ->
    forall i b,
      nth_error
        (unpinned_bindings
           (fst (entry_loop ip_address ip_network_hosts virtual_mac existing
                   (st, fifo) entries))) i = Some b ->
      b = nth_error (sgup_names_of st)
            (Nat.modulo (k + i) (List.length (sgup_names_of st))).
Proof.
  intros virtual_mac existing.
  induction entries as [|entry rest IH]; intros st fifo k Hne Hinv i b Hnth.
  - simpl in Hnth. destruct i; discriminate Hnth.
  - cbn [entry_loop] in Hnth.
    destruct (create_default_item_round_robin virtual_mac existing st fifo entry k
                Hne Hinv) as [es [st' [fifo' [Hitem [Hnames Hcase]]]]].
    rewrite Hitem in Hnth.
    assert (Hne' : sgup_names_of st' <> []) by (rewrite Hnames; exact Hne).
    pose proof (IH st' fifo') as IH'. rewrite Hnames in IH'.
    destruct (entry_loop ip_address ip_network_hosts virtual_mac existing
                (st', fifo') rest) as [es' s'']. simpl in Hnth, IH'.
    unfold unpinned_bindings in Hnth. rewrite filter_map_app in Hnth.
    destruct Hcase as [[Hnone Hinv'] | [Hone Hinv']].
    + unfold unpinned_bindings in Hnone. rewrite Hnone in Hnth. simpl in Hnth.
      apply (IH' k Hne Hinv'). exact Hnth.
    + unfold unpinned_bindings in Hone. rewrite Hone in Hnth. simpl in Hnth.
      destruct i as [|j].
      * simpl in Hnth. injection Hnth as Hb. rewrite Nat.add_0_r. symmetry. exact Hb.
      * simpl in Hnth. replace (k + S j)%nat with (S k + j)%nat by lia.
        apply (IH' (S k) Hne Hinv'). exact Hnth.
Qed.

(** C2, amended. In one invocation of [create_default_items] the list
    [sgup_names] starts empty and is filled from the user planes of the
    store, in store order, whenever it is empty when an entry is
    materialized. Each shard created from an entry without pin takes the
    head of the list, so the [i]-th of them (from 0) is bound to the user
    plane at position [i mod n] of the [n] user planes of the store, and
    none of them is created without a desired user plane. *)
Theorem unpinned_shards_round_robin :
  forall config_file virtual_mac st i b,
    nth_error
      (unpinned_bindings
         (fst (create_default_items ip_address ip_network_hosts config_file
                 virtual_mac st))) i = Some b ->
    exists name,
      b = Some name
      /\ nth_error (sgup_names_of st) (Nat.modulo i (List.length (sgup_names_of st)))
         = Some name.
Proof.
  intros config_file virtual_mac st i b Hnth.
  unfold create_default_items in Hnth.
  assert (Hempty : forall j, nth_error (unpinned_bindings []) j = Some b -> False).
  { intros j H. destruct j; discriminate H. }
  destruct config_file as [| |entries]; simpl in Hnth.
  - exfalso. exact (Hempty i Hnth).
  - destruct (List.length (service_gateway_user_planes st) =? 0)%nat; simpl in Hnth;
      destruct i; discriminate Hnth.
  - destruct (List.length (service_gateway_user_planes st) =? 0)%nat eqn:Hlen;
      simpl in Hnth; [destruct i; discriminate Hnth|].
    assert (Hne : sgup_names_of st <> []).
    { unfold sgup_names_of. destruct (service_gateway_user_planes st);
        [discriminate Hlen | discriminate]. }
    assert (Hn : List.length (sgup_names_of st) <> 0%nat).
    { destruct (sgup_names_of st); [exfalso; apply Hne; reflexivity | discriminate]. }
    assert (Hinv : fifo_inv (sgup_names_of st) 0 []).
    { left. split; [reflexivity | apply Nat.Div0.mod_0_l]. }
    pose proof (entry_loop_round_robin virtual_mac _ entries st [] 0%nat Hne Hinv i b Hnth)
      as Hb. simpl in Hb.
    destruct (nth_error (sgup_names_of st)
                (Nat.modulo i (List.length (sgup_names_of st)))) as [name|] eqn:E.
    + exists name. split; [exact Hb | reflexivity].
    + exfalso. apply nth_error_None in E.
      pose proof (Nat.mod_upper_bound i _ Hn). lia.
Qed.

End RoundRobin.

Lemma unpinned_shards_round_robin_witness :
  unpinned_bindings
    (fst (create_default_items IPv4.ip_address IPv4.ip_network_hosts four_entries
            "00:00:01:00:00:00" two_plane_store))
  = [Some "A"; Some "B"; Some "A"]
  /\ exists name,
       Some "A" = Some name
       /\ nth_error (sgup_names_of two_plane_store)
            (Nat.modulo 2 (List.length (sgup_names_of two_plane_store)))
          = Some name.
Proof.
  assert (Hrun : unpinned_bindings
                   (fst (create_default_items IPv4.ip_address IPv4.ip_network_hosts
                           four_entries "00:00:01:00:00:00" two_plane_store))
                 = [Some "A"; Some "B"; Some "A"])
    by (vm_compute; reflexivity).
  split; [exact Hrun|].
  apply (unpinned_shards_round_robin IPv4.ip_address IPv4.ip_network_hosts four_entries
           "00:00:01:00:00:00" two_plane_store 2%nat (Some "A")).
  rewrite Hrun. reflexivity.
Defined.

(** C2 as stated fails: with the one user plane [A] and two entries without
    pin, the list is emptied by the first shard and filled again for the
    second, which is bound to [A] and not created without a user plane. *)
Lemma fifo_is_refilled :
  filter_map (fun e => match e with
                       | EvCreateShard p =>
                           Some (c_name p, c_desired_service_gateway_user_plane p)
                       | _ => None
                       end)
    (fst (create_default_items IPv4.ip_address IPv4.ip_network_hosts
            (Config [plain_entry "s1" "10.0.1.0/24"; plain_entry "s2" "10.0.2.0/24"])
            "00:00:01:00:00:00" one_plane))
  = [("s1", Some "A"); ("s2", Some "A")].
Proof. vm_compute. reflexivity. Qed.

(** * Further properties of the program *)

(** ** Matching of network connections *)

Lemma set_add_In :
  forall x n s, In x (set_add n s) <-> x = n \/ In x s.
Proof.
  intros x n s. unfold set_add. destruct (str_in n s) eqn:E.
  - split; [intro H; right; exact H|].
    intros [H|H]; [subst x; apply str_in_In; exact E | exact H].
  - rewrite in_app_iff. simpl. split.
    + intros [H|[H|[]]]; [right; exact H | left; symmetry; exact H].
    + intros [H|H]; [right; left; symmetry; exact H | left; exact H].
Qed.

Lemma set_add_twice : forall n s, set_add n (set_add n s) = set_add n s.
Proof.
  intros n s. unfold set_add at 1.
  assert (H : str_in n (set_add n s) = true).
  { apply str_in_In. apply set_add_In. left. reflexivity. }
  rewrite H. reflexivity.
Qed.

Lemma dict_set_twice :
  forall (V : Type) (k : string) (v : V) (d : list (string * V)),
    dict_set k v (dict_set k v d) = dict_set k v d.
Proof.
  intros V k v. induction d as [|[k' v'] r IH]; simpl.
  - rewrite String.eqb_refl. reflexivity.
  - destruct (String.eqb k' k) eqn:E; simpl; rewrite E; [reflexivity|].
    rewrite IH. reflexivity.
Qed.

Lemma record_match_twice :
  forall tsf nc acc,
    record_match tsf nc (record_match tsf nc acc) = record_match tsf nc acc.
Proof.
  intros tsf nc acc. unfold record_match. simpl.
  rewrite set_add_twice, dict_set_twice. reflexivity.
Qed.

(** A loop that records the same match under a condition records it once
    if the condition holds for an item, and not at all otherwise. *)
Lemma fold_record :
  forall (A : Type) (cond : A -> bool) tsf nc (l : list A) acc,
    fold_left (fun acc x => if cond x then record_match tsf nc acc else acc) l acc
    = if existsb cond l then record_match tsf nc acc else acc.
Proof.
  intros A cond tsf nc. induction l as [|x l IH]; intro acc; simpl.
  - reflexivity.
  - rewrite IH. destruct (cond x); simpl; [|reflexivity].
    destruct (existsb cond l); [apply record_match_twice | reflexivity].
Qed.

Lemma existsb_andb_r :
  forall (A : Type) (f : A -> bool) (b : bool) (l : list A),
    existsb (fun x => f x && b) l = existsb f l && b.
Proof.
  intros A f b. induction l as [|x l IH]; simpl.
  - reflexivity.
  - rewrite IH. destruct (f x), b, (existsb f l); reflexivity.
Qed.

Lemma existsb_andb_l :
  forall (A : Type) (g : A -> bool) (b : bool) (l : list A),
    existsb (fun x => b && g x) l = b && existsb g l.
Proof.
  intros A g b. induction l as [|x l IH]; simpl.
  - destruct b; reflexivity.
  - rewrite IH. destruct b, (g x), (existsb g l); reflexivity.
Qed.

Lemma fold_left_ext :
  forall (A B : Type) (f g : A -> B -> A) (l : list B) (a : A),
    (forall a x, f a x = g a x) -> fold_left f l a = fold_left g l a.
Proof.
  intros A B f g l a H. revert a. induction l as [|x l IH]; intro a; simpl.
  - reflexivity.
  - rewrite H. apply IH.
Qed.

(** One network connection for one traffic steering function: it is
    recorded exactly when the topology rule of its tag links the two
    endpoints. *)
Lemma match_network_connection_connects :
  forall up_ep_name tsf acc nc,
    match_network_connection up_ep_name tsf acc nc
    = if connects up_ep_name tsf nc then record_match tsf nc acc else acc.
Proof.
  intros up_ep_name tsf acc nc.
  unfold match_network_connection, connects, match_pair.
  destruct (tag_in (nc_spec_type nc) ["SsPtpSpec"; "ss_ptp"]).
  - rewrite fold_record, existsb_andb_r. reflexivity.
  - destruct (tag_in (nc_spec_type nc) ["SsMptpSpec"; "ss_mptpc"]).
    + rewrite (fold_left_ext _ _ _
                 (fun acc up_ep =>
                    if String.eqb up_ep_name (endpoint_name up_ep)
                       && existsb
                            (fun e => String.eqb (endpoint_name (tsf_default_endpoint tsf))
                                        (endpoint_name e))
                            (ss_mptp_tsf_endpoint (nc_ss_mptp nc))
                    then record_match tsf nc acc else acc)).
      * rewrite fold_record, existsb_andb_r. reflexivity.
      * intros a up_ep. rewrite fold_record, existsb_andb_l. reflexivity.
    + destruct (tag_in (nc_spec_type nc) ["MsPtpSpec"; "ms_ptp"]); [reflexivity|].
      destruct (tag_in (nc_spec_type nc) ["MsMptpSpec"; "ms_mptp"]); [|reflexivity].
      rewrite fold_record, existsb_andb_l. reflexivity.
Qed.

Lemma matched_names_one_tsf :
  forall up_ep_name tsf ncs acc n,
    In n (fst (fold_left (match_network_connection up_ep_name tsf) ncs acc))
    <-> In n (fst acc)
        \/ exists nc, In nc ncs /\ connects up_ep_name tsf nc = true /\ nc_name nc = n.
Proof.
  intros up_ep_name tsf. induction ncs as [|nc ncs IH]; intros acc n; simpl.
  - split; [intro H; left; exact H|]. intros [H|[nc [[] _]]]. exact H.
  - rewrite IH, match_network_connection_connects. split.
    + intros [H|[nc' [Hin [Hc Hn]]]].
      * destruct (connects up_ep_name tsf nc) eqn:E.
        -- simpl in H. apply set_add_In in H. destruct H as [H|H].
           ++ right. exists nc. split; [left; reflexivity|]. split; [exact E|].
              symmetry. exact H.
           ++ left. exact H.
        -- left. exact H.
      * right. exists nc'. split; [right; exact Hin|]. split; assumption.
    + intros [H|[nc' [[Hin|Hin] [Hc Hn]]]].
      * left. destruct (connects up_ep_name tsf nc); [|exact H].
        simpl. apply set_add_In. right. exact H.
      * subst nc'. left. rewrite Hc. simpl. apply set_add_In. left.
        symmetry. exact Hn.
      * right. exists nc'. split; [exact Hin|]. split; assumption.
Qed.

Lemma matched_names_from :
  forall up_ep_name ncs tsfs acc n,
    In n (fst (fold_left
                 (fun acc tsf => fold_left (match_network_connection up_ep_name tsf) ncs acc)
                 tsfs acc))
    <-> In n (fst acc)
        \/ exists tsf nc,
             In tsf tsfs /\ In nc ncs
             /\ connects up_ep_name tsf nc = true /\ nc_name nc = n.
Proof.
  intros up_ep_name ncs. induction tsfs as [|tsf tsfs IH]; intros acc n; simpl.
  - split; [intro H; left; exact H|]. intros [H|[tsf [nc [[] _]]]]. exact H.
  - rewrite IH, matched_names_one_tsf. split.
    + intros [[H|[nc [Hin [Hc Hn]]]]|[tsf' [nc [Ht [Hin [Hc Hn]]]]]].
      * left. exact H.
      * right. exists tsf, nc. split; [left; reflexivity|]. repeat split; assumption.
      * right. exists tsf', nc. split; [right; exact Ht|]. repeat split; assumption.
    + intros [H|[tsf' [nc [[Ht|Ht] [Hin [Hc Hn]]]]]].
      * left. left. exact H.
      * subst tsf'. left. right. exists nc. repeat split; assumption.
      * right. exists tsf', nc. repeat split; assumption.
Qed.

(** X1. The names that the matching records for a user plane endpoint are
    exactly the names of the network connections of the snapshot that
    link this endpoint to the default endpoint of some traffic steering
    function of the snapshot under the topology rule of their tag. *)
Theorem recorded_iff_connects :
  forall up_ep_name tsfs ncs n,
    In n (fst (match_network_connections up_ep_name tsfs ncs))
    <-> exists tsf nc,
          In tsf tsfs /\ In nc ncs
          /\ connects up_ep_name tsf nc = true /\ nc_name nc = n.
Proof.
  intros up_ep_name tsfs ncs n. unfold match_network_connections.
  rewrite matched_names_from. simpl. split.
  - intros [[]|H]. exact H.
  - intro H. right. exact H.
Qed.

Lemma dict_get_set_same :
  forall (V : Type) (k : string) (v : V) (d : list (string * V)),
    dict_get k (dict_set k v d) = Some v.
Proof.
  intros V k v. induction d as [|[k' v'] r IH]; simpl.
  - rewrite String.eqb_refl. reflexivity.
  - destruct (String.eqb k' k) eqn:E; simpl; rewrite E; [reflexivity | exact IH].
Qed.

Lemma dict_get_set_other :
  forall (V : Type) (k k0 : string) (v : V) (d : list (string * V)),
    k0 <> k -> dict_get k0 (dict_set k v d) = dict_get k0 d.
Proof.
  intros V k k0 v d Hne. induction d as [|[k' v'] r IH]; simpl.
  - destruct (String.eqb k k0) eqn:E; [|reflexivity].
    apply String.eqb_eq in E. exfalso. apply Hne. symmetry. exact E.
  - destruct (String.eqb k' k) eqn:E; simpl.
    + apply String.eqb_eq in E. subst k'.
      destruct (String.eqb k k0) eqn:E0; [|reflexivity].
      apply String.eqb_eq in E0. exfalso. apply Hne. symmetry. exact E0.
    + destruct (String.eqb k' k0); [reflexivity | exact IH].
Qed.

Lemma find_last :
  forall (A : Type) (f : A -> bool) (l : list A) (x : A),
    find f (rev (x :: l))
    = match find f (rev l) with
      | Some y => Some y
      | None => if f x then Some x else None
      end.
Proof.
  intros A f l x. simpl rev.
  induction (rev l) as [|y r IH]; simpl.
  - reflexivity.
  - destruct (f y); [reflexivity | exact IH].
Qed.

(** The slot of a traffic steering function after its own loop over the
    network connections: the last one that connects, else what it was. *)
Lemma slot_one_tsf :
  forall up_ep_name tsf ncs acc t,
    dict_get t (snd (fold_left (match_network_connection up_ep_name tsf) ncs acc))
    = if String.eqb (tsf_name tsf) t
      then match find (connects up_ep_name tsf) (rev ncs) with
           | Some nc => Some (nc_name nc)
           | None => dict_get t (snd acc)
           end
      else dict_get t (snd acc).
Proof.
  intros up_ep_name tsf. induction ncs as [|nc ncs IH]; intros acc t.
  - simpl. destruct (String.eqb (tsf_name tsf) t); reflexivity.
  - simpl fold_left. rewrite IH, find_last, match_network_connection_connects.
    destruct (String.eqb (tsf_name tsf) t) eqn:Et.
    + apply String.eqb_eq in Et. subst t.
      destruct (find (connects up_ep_name tsf) (rev ncs)); [reflexivity|].
      destruct (connects up_ep_name tsf nc); [|reflexivity].
      simpl. apply dict_get_set_same.
    + destruct (connects up_ep_name tsf nc); [|reflexivity].
      simpl. apply dict_get_set_other. intro H. subst t.
      rewrite String.eqb_refl in Et. discriminate Et.
Qed.

Lemma slot_from :
  forall up_ep_name ncs tsfs acc tsf,
    NoDup (map tsf_name tsfs) ->
    In tsf tsfs ->
    dict_get (tsf_name tsf)
      (snd (fold_left
              (fun acc tsf => fold_left (match_network_connection up_ep_name tsf) ncs acc)
              tsfs acc))
    = match find (connects up_ep_name tsf) (rev ncs) with
      | Some nc => Some (nc_name nc)
      | None => dict_get (tsf_name tsf) (snd acc)
      end.
Proof.
  intros up_ep_name ncs. induction tsfs as [|x tsfs IH]; intros acc tsf Hnd Hin;
    [destruct Hin|].
  inversion Hnd as [|n ns Hnotin Hnd']; subst. simpl fold_left.
  destruct Hin as [Hx|Hin].
  - subst x.
    assert (Hrest : forall acc0,
               dict_get (tsf_name tsf)
                 (snd (fold_left
                         (fun acc tsf0 =>
                            fold_left (match_network_connection up_ep_name tsf0) ncs acc)
                         tsfs acc0))
               = dict_get (tsf_name tsf) (snd acc0)).
    { clear IH Hnd Hnd'. induction tsfs as [|y tsfs IHr]; intro acc0; [reflexivity|].
      simpl fold_left. rewrite IHr.
      - rewrite slot_one_tsf.
        destruct (String.eqb (tsf_name y) (tsf_name tsf)) eqn:E; [|reflexivity].
        apply String.eqb_eq in E. exfalso. apply Hnotin. left. exact E.
      - intro H. apply Hnotin. right. exact H. }
    rewrite Hrest, slot_one_tsf, String.eqb_refl. reflexivity.
  - rewrite (IH _ tsf Hnd' Hin), slot_one_tsf.
    destruct (String.eqb (tsf_name x) (tsf_name tsf)) eqn:E; [|reflexivity].
    apply String.eqb_eq in E. exfalso. apply Hnotin. rewrite E.
    apply in_map. exact Hin.
Qed.

(** X2. With distinct names of the traffic steering functions, the dict
    tsf -> nc holds for each of them the last network connection, in the
    order of the store, that connects it to the endpoint of the user
    plane, and no item when none does. *)
Theorem tsf_slot_last_wins :
  forall up_ep_name tsfs ncs tsf,
    NoDup (map tsf_name tsfs) ->
    In tsf tsfs ->
    dict_get (tsf_name tsf) (snd (match_network_connections up_ep_name tsfs ncs))
    = option_map nc_name (find (connects up_ep_name tsf) (rev ncs)).
Proof.
  intros up_ep_name tsfs ncs tsf Hnd Hin. unfold match_network_connections.
  rewrite (slot_from up_ep_name ncs tsfs ([], []) tsf Hnd Hin).
  destruct (find (connects up_ep_name tsf) (rev ncs)); reflexivity.
Qed.

Lemma tsf_slot_last_wins_witness :
  NoDup (map tsf_name two_tsfs)
  /\ dict_get "t1" (snd (match_network_connections "ep-A" two_tsfs [nc2_single; nc1_multi]))
     = Some "nc1".
Proof.
  assert (Hnd : NoDup (map tsf_name two_tsfs)).
  { simpl. repeat constructor; simpl; intuition discriminate. }
  split; [exact Hnd|].
  exact (tsf_slot_last_wins "ep-A" two_tsfs [nc2_single; nc1_multi]
           (mkTSF "t1" (mkEndpoint "ep-T1")) Hnd (or_intror (or_introl eq_refl))).
Defined.

(** ** What a sweep writes *)

Lemma shard_loop_update_source :
  forall body l p,
    In p (updates (fst (shard_loop body l))) ->
    exists shard, In shard l /\ In p (updates (fst (body shard))).
Proof.
  intros body l p. induction l as [|h r IH]; simpl.
  - intros [].
  - destruct (body h) as [es flow] eqn:Hb.
    assert (Hh : In p (updates es) -> exists shard, In shard (h :: r)
                                        /\ In p (updates (fst (body shard)))).
    { intro Hin. exists h. split; [left; reflexivity|]. rewrite Hb. exact Hin. }
    destruct flow; simpl; try exact Hh.
    destruct (shard_loop body r) as [es' x]. simpl in *.
    rewrite updates_app. intro Hin. apply in_app_or in Hin.
    destruct Hin as [Hin|Hin]; [exact (Hh Hin)|].
    destruct (IH Hin) as [s [Hs Hp]]. exists s. split; [right; exact Hs | exact Hp].
Qed.

Lemma updates_reset :
  forall l,
    updates (map (fun shard => EvUpdateShard (reset_params shard)) l) = map reset_params l.
Proof.
  unfold updates. induction l as [|h l IH]; [reflexivity|]. simpl. f_equal. exact IH.
Qed.

(** X3. Every [update_shard] of a sweep has one of two forms. Without user
    planes it is the reset of a shard of the snapshot whose desired user
    plane is not empty: it passes the name, the prefix of the shard and the
    merge strategy "replace", and nothing else. With user planes it is for
    a shard of the snapshot and names as desired user plane a user plane
    [u] of the snapshot; its service groups are those of [u] but the empty
    label, its tsf slots are those matched for the default endpoint of [u],
    and its network connections are the names matched for that endpoint,
    listed in the order in which the process iterates the set; the prefix
    is the prefix of the shard and the merge strategy is "replace". *)
Theorem sweep_update_form {order : SetOrder} :
  forall config_file st p,
    In p (updates (fst (map_shards config_file st))) ->
    (service_gateway_user_planes st = []
     /\ exists shard,
          In shard (shards st)
          /\ shard_desired_sgup shard <> ""
          /\ p = mkUpdate (shard_name shard) None None None None
                   (Some (shard_prefix shard)) (Some "replace"))
    \/ (exists shard u,
          In shard (shards st)
          /\ In u (service_gateway_user_planes st)
          /\ p = mkUpdate (shard_name shard) (Some (sgup_name u))
                   (Some (iterate
                            (fst (match_network_connections
                                    (endpoint_name (sgup_default_endpoint u))
                                    (traffic_steering_functions st)
                                    (network_connections st)))))
                   (Some (snd (match_network_connections
                                 (endpoint_name (sgup_default_endpoint u))
                                 (traffic_steering_functions st)
                                 (network_connections st))))
                   (Some (filter (fun g => negb (String.eqb g ""))
                                 (sgup_supported_service_group u)))
                   (Some (shard_prefix shard)) (Some "replace")).
Proof.
  intros config_file st p. unfold map_shards.
  destruct (service_gateway_user_planes st) as [|u0 us] eqn:Hus.
  - simpl. intro Hin. left. split; [reflexivity|].
    unfold updates in Hin. simpl in Hin.
    change (In p (updates (map (fun shard => EvUpdateShard (reset_params shard))
                              (filter has_desired_sgup (shards st))))) in Hin.
    rewrite updates_reset in Hin. apply in_map_iff in Hin. destruct Hin as [h [Hp Hin]].
    apply filter_In in Hin. destruct Hin as [Hin Hdes].
    exists h. split; [exact Hin|]. split; [|symmetry; exact Hp].
    unfold has_desired_sgup in Hdes. apply negb_true_iff in Hdes.
    apply String.eqb_neq in Hdes. exact Hdes.
  - simpl Nat.eqb. cbv iota. rewrite <- Hus. intro Hin. right.
    destruct (shard_loop_update_source _ _ _ Hin) as [shard [Hs Hp]].
    rewrite map_shard_updates in Hp.
    destruct (fp_active shard) as [fa|]; [|destruct Hp].
    destruct (decision config_file st (map sg_name (service_gateways st))
                (map sgup_name (service_gateway_user_planes st))
                (traffic_steering_functions st) (network_connections st) shard)
      as [[u m]|] eqn:Hd; [|destruct Hp].
    destruct (fp_desired (u, m)) as [fd|]; [|destruct Hp].
    destruct (String.eqb fd fa); [destruct Hp|].
    destruct Hp as [Hp|[]]. subst p.
    unfold decision in Hd.
    destruct (snd (select_sgup _ _ _ _ _)) as [n| |]; try discriminate Hd.
    destruct (get_service_gateway_user_plane st n) as [u'|] eqn:Hget;
      try discriminate Hd.
    injection Hd as Hu Hm. subst u' m.
    exists shard, u. split; [exact Hs|].
    split; [apply (get_sgup_some _ _ _ Hget)|]. reflexivity.
Qed.

Lemma sweep_update_form_witness :
  In update_of_t
    (updates (fst (map_shards (order := insertion_order) pinned_to_missing store_pin_last)))
  /\ exists shard u,
       In shard (shards store_pin_last)
       /\ In u (service_gateway_user_planes store_pin_last)
       /\ u_name update_of_t = shard_name shard
       /\ u_desired_service_gateway_user_plane update_of_t = Some (sgup_name u).
Proof.
  assert (Hin : In update_of_t
                  (updates (fst (map_shards (order := insertion_order) pinned_to_missing
                                   store_pin_last))))
    by (vm_compute; left; reflexivity).
  split; [exact Hin|].
  destruct (sweep_update_form (order := insertion_order) pinned_to_missing
              store_pin_last update_of_t Hin)
    as [[Hnone _] | [shard [u [Hs [Hu Hp]]]]].
  - discriminate Hnone.
  - exists shard, u. split; [exact Hs|]. split; [exact Hu|].
    rewrite Hp. split; reflexivity.
Defined.

Lemma shard_loop_update_names_nodup :
  forall body l,
    (forall shard p, In p (updates (fst (body shard))) -> u_name p = shard_name shard) ->
    (forall shard, (List.length (updates (fst (body shard))) <= 1)%nat) ->
    NoDup (map shard_name l) ->
    NoDup (map u_name (updates (fst (shard_loop body l)))).
Proof.
  intros body l Hnames Hone. induction l as [|h r IH]; intro Hnd; simpl.
  - constructor.
  - inversion Hnd as [|n ns Hnotin Hnd']; subst.
    pose proof (Hnames h) as Hh. pose proof (Hone h) as H1.
    pose proof (shard_loop_update_names body r) as Hrest.
    destruct (body h) as [es flow]. simpl in Hh, H1.
    assert (Hes : NoDup (map u_name (updates es))).
    { destruct (updates es) as [|p [|q l']]; simpl in *;
        [constructor | repeat constructor; intros [] | lia]. }
    destruct flow; simpl; try exact Hes.
    specialize (IH Hnd').
    destruct (shard_loop body r) as [es' x]. simpl in *.
    rewrite updates_app, map_app.
    destruct (updates es) as [|p [|q l']]; simpl in *; [exact IH | | lia].
    constructor; [|exact IH].
    intro Hin. apply in_map_iff in Hin. destruct Hin as [q [Hq Hin]].
    destruct (Hrest q Hnames Hin) as [s [Hs Hn]].
    apply Hnotin. rewrite <- (Hh p (or_introl eq_refl)), <- Hq, Hn.
    apply in_map. exact Hs.
Qed.

Lemma map_shard_one_update {order : SetOrder} :
  forall config_file st sg_names up_names tsfs ncs shard,
    (List.length
       (updates (fst (map_shard config_file st sg_names up_names tsfs ncs shard))) <= 1)%nat.
Proof.
  intros. rewrite map_shard_updates.
  destruct (fp_active shard); [|simpl; lia].
  destruct (decision _ _ _ _ _ _ _); [|simpl; lia].
  destruct (fp_desired _); [|simpl; lia].
  destruct (String.eqb _ _); simpl; lia.
Qed.

Lemma sweep_events_no_create :
  forall t, Forall sweep_event t -> creates t = [].
Proof.
  induction t as [|e t IH]; intro H; [reflexivity|].
  inversion H as [|e' t' He Ht]; subst.
  destruct He as [[w Hw]|[p Hp]]; subst e; simpl; apply IH; exact Ht.
Qed.

(** X4. A sweep over shards of distinct names issues at most one
    [update_shard] for a shard, and it never calls [create_shard]. *)
Theorem sweep_writes_once_per_shard {order : SetOrder} :
  forall config_file st,
    NoDup (map shard_name (shards st)) ->
    NoDup (map u_name (updates (fst (map_shards config_file st))))
    /\ creates (fst (map_shards config_file st)) = [].
Proof.
  intros config_file st Hnd. split.
  - unfold map_shards.
    destruct (List.length (service_gateway_user_planes st) =? 0)%nat.
    + simpl. change (NoDup (map u_name (updates
               (map (fun shard => EvUpdateShard (reset_params shard))
                    (filter has_desired_sgup (shards st)))))).
      rewrite updates_reset, map_map. simpl.
      apply NoDup_map_filter. exact Hnd.
    + apply shard_loop_update_names_nodup.
      * intros shard p. apply map_shard_update_names.
      * intro shard. apply map_shard_one_update.
      * exact Hnd.
  - apply sweep_events_no_create. apply map_shards_sweep_events.
Qed.

Lemma sweep_writes_once_per_shard_witness :
  NoDup (map shard_name (shards store_two_shards))
  /\ NoDup (map u_name
              (updates (fst (map_shards (order := insertion_order) pin_s_to_A
                               store_two_shards))))
  /\ creates (fst (map_shards (order := insertion_order) pin_s_to_A store_two_shards)) = [].
Proof.
  assert (Hnd : NoDup (map shard_name (shards store_two_shards))).
  { simpl. repeat constructor; simpl; intuition discriminate. }
  split; [exact Hnd|].
  exact (sweep_writes_once_per_shard (order := insertion_order) pin_s_to_A
           store_two_shards Hnd).
Defined.

(** ** A sweep that stops *)

Lemma shard_loop_app_stop :
  forall body l1 h l2,
    snd (body h) <> Next ->
    shard_loop body (l1 ++ h :: l2) = shard_loop body (l1 ++ [h]).
Proof.
  intros body l1 h l2 Hstop. induction l1 as [|x l1 IH]; simpl.
  - destruct (body h) as [es flow]. simpl in Hstop.
    destruct flow; [exfalso; apply Hstop; reflexivity | reflexivity | reflexivity].
  - rewrite IH. reflexivity.
Qed.

Lemma shard_loop_app_stop_updates :
  forall body l1 h,
    snd (body h) <> Next ->
    updates (fst (body h)) = [] ->
    updates (fst (shard_loop body (l1 ++ [h]))) = updates (fst (shard_loop body l1)).
Proof.
  intros body l1 h Hstop Hnone. induction l1 as [|x l1 IH]; simpl.
  - destruct (body h) as [es flow]. simpl in Hstop, Hnone.
    destruct flow; [exfalso; apply Hstop; reflexivity | exact Hnone | exact Hnone].
  - destruct (body x) as [es flow]. destruct flow; try reflexivity.
    destruct (shard_loop body (l1 ++ [h])) as [es1 x1].
    destruct (shard_loop body l1) as [es2 x2]. simpl in *.
    rewrite !updates_app, IH. reflexivity.
Qed.

Lemma map_shard_unresolvable_pin {order : SetOrder} :
  forall config_file st sg_names up_names tsfs ncs shard Z,
    snd (get_static_shard_to_sgup_mapping config_file (shard_name shard)) = Some Z ->
    ~ In Z up_names ->
    snd (map_shard config_file st sg_names up_names tsfs ncs shard) <> Next
    /\ (fp_active shard <> None ->
        map_shard config_file st sg_names up_names tsfs ncs shard
        = (fst (get_static_shard_to_sgup_mapping config_file (shard_name shard))
             ++ [EvWarning (StaticSgupNotAvailable (shard_name shard) Z)],
           Return)).
Proof.
  intros config_file st sg_names up_names tsfs ncs shard Z Hpin HZ.
  apply str_in_false in HZ.
  unfold map_shard, fp_active.
  destruct (fingerprint (finger (shard_desired_sgup shard) (shard_desired_nc shard)))
    as [fa|].
  - destruct (get_static_shard_to_sgup_mapping config_file (shard_name shard))
      as [ws static]. simpl in Hpin. subst static.
    assert (Hsel : select_sgup (service_gateway_user_planes st) sg_names up_names shard
                     (Some Z)
                   = ([EvWarning (StaticSgupNotAvailable (shard_name shard) Z)],
                      ReturnFromSweep)).
    { unfold select_sgup, need_mapping.
      destruct (String.eqb (shard_desired_sgup shard) Z) eqn:E.
      - apply String.eqb_eq in E. rewrite E, HZ. simpl. rewrite ?HZ. reflexivity.
      - simpl. rewrite ?HZ. reflexivity. }
    rewrite Hsel. simpl. split; [discriminate | reflexivity].
  - simpl. split; [discriminate|]. intro H. exfalso. apply H. reflexivity.
Qed.

Lemma shard_loop_stop_exit :
  forall body l1 h,
    snd (body h) <> Next -> snd (shard_loop body (l1 ++ [h])) <> Completed.
Proof.
  intros body l1 h Hstop. induction l1 as [|x l1 IH]; simpl.
  - destruct (body h) as [es flow]. simpl in Hstop.
    destruct flow; [exfalso; apply Hstop; reflexivity | discriminate | discriminate].
  - destruct (body x) as [es flow]. destruct flow; try discriminate.
    destruct (shard_loop body (l1 ++ [h])) as [es' x']. exact IH.
Qed.

(** The sweep over a snapshot with user planes, as a loop over its shards. *)
Lemma map_shards_with_shards {order : SetOrder} :
  forall config_file st l,
    service_gateway_user_planes st <> [] ->
    map_shards config_file (with_shards st l)
    = shard_loop
        (map_shard config_file st (map sg_name (service_gateways st))
           (map sgup_name (service_gateway_user_planes st))
           (traffic_steering_functions st) (network_connections st)) l.
Proof.
  intros config_file st l Hsgups. unfold map_shards, with_shards. simpl.
  destruct (service_gateway_user_planes st) as [|u0 us] eqn:Hus;
    [exfalso; apply Hsgups; reflexivity|].
  simpl Nat.eqb. cbv iota. rewrite <- Hus.
  apply shard_loop_ext. intro shard. apply map_shard_store. reflexivity.
Qed.

(** X5. In a snapshot with user planes, a shard whose pin names none of
    them ends the sweep: the trace and the way the sweep ends do not
    depend on the shards that follow it in the snapshot, and the updates
    issued are those of a sweep over the shards before it. *)
Theorem unresolvable_pin_truncates {order : SetOrder} :
  forall config_file st l1 shard l2 Z,
    service_gateway_user_planes st <> [] ->
    snd (get_static_shard_to_sgup_mapping config_file (shard_name shard)) = Some Z ->
    ~ In Z (map sgup_name (service_gateway_user_planes st)) ->
    map_shards config_file (with_shards st (l1 ++ shard :: l2))
    = map_shards config_file (with_shards st (l1 ++ [shard]))
    /\ snd (map_shards config_file (with_shards st (l1 ++ [shard]))) <> Completed
    /\ updates (fst (map_shards config_file (with_shards st (l1 ++ [shard]))))
       = updates (fst (map_shards config_file (with_shards st l1))).
Proof.
  intros config_file st l1 shard l2 Z Hsgups Hpin HZ.
  rewrite !map_shards_with_shards by exact Hsgups.
  set (body := map_shard config_file st _ _ _ _).
  assert (Hstop : snd (body shard) <> Next).
  { unfold body. apply (map_shard_unresolvable_pin _ _ _ _ _ _ _ Z); assumption. }
  split; [apply shard_loop_app_stop; exact Hstop|]. split.
  - apply shard_loop_stop_exit. exact Hstop.
  - apply shard_loop_app_stop_updates; [exact Hstop|].
    unfold body. apply map_shard_stop_no_update. exact Hstop.
Qed.

Lemma unresolvable_pin_truncates_witness :
  map_shards (order := insertion_order) pinned_to_missing
    (with_shards store_pin_first ([] ++ sample_shard "s" "" [] :: [sample_shard "t" "" []]))
  = map_shards (order := insertion_order) pinned_to_missing
      (with_shards store_pin_first ([] ++ [sample_shard "s" "" []])).
Proof.
  refine (proj1 (unresolvable_pin_truncates pinned_to_missing store_pin_first []
                   (sample_shard "s" "" []) [sample_shard "t" "" []] "Z" _ eq_refl _)).
  - discriminate.
  - simpl. intuition discriminate.
Defined.

(** ** The fingerprinted string *)

Lemma append_sep_inj :
  forall c u u' r r',
    lacks c u -> lacks c u' ->
    (u ++ String c r)%string = (u' ++ String c r')%string ->
    u = u' /\ r = r'.
Proof.
  intros c. induction u as [|a u IH]; intros [|a' u'] r r' Hu Hu' Heq; simpl in Heq.
  - injection Heq as Hr. split; [reflexivity | exact Hr].
  - injection Heq as Hc _. exfalso. apply Hu'. simpl. left. symmetry. exact Hc.
  - injection Heq as Hc _. exfalso. apply Hu. simpl. left. exact Hc.
  - injection Heq as Ha Hrest. subst a'.
    destruct (IH u' r r') as [H1 H2].
    + intro H. apply Hu. simpl. right. exact H.
    + intro H. apply Hu'. simpl. right. exact H.
    + exact Hrest.
    + subst u'. split; [reflexivity | exact H2].
Qed.

Lemma lacks_append :
  forall c a b, ~ lacks c (a ++ String c b)%string.
Proof.
  intros c a b H. apply H. clear H. induction a as [|x a IH]; simpl.
  - left. reflexivity.
  - right. exact IH.
Qed.

Lemma append_not_empty :
  forall c a b, (a ++ String c b)%string <> EmptyString.
Proof.
  intros c [|x a] b H; discriminate H.
Qed.

Lemma join_cons2 :
  forall sep x y l,
    join sep (x :: y :: l) = (x ++ sep ++ join sep (y :: l))%string.
Proof. reflexivity. Qed.

Lemma join_comma_inj :
  forall l l',
    plain_names l -> plain_names l' ->
    join "," l = join "," l' -> l = l'.
Proof.
  induction l as [|x t IH]; intros l' Hl Hl' Heq.
  - destruct l' as [|x' t']; [reflexivity|]. exfalso.
    destruct (Hl' x' (or_introl eq_refl)) as [Hne _].
    destruct t' as [|y' t2'].
    + simpl in Heq. apply Hne. symmetry. exact Heq.
    + rewrite join_cons2 in Heq. simpl in Heq. symmetry in Heq.
      exact (append_not_empty _ _ _ Heq).
  - destruct l' as [|x' t'].
    + exfalso. destruct (Hl x (or_introl eq_refl)) as [Hne _].
      destruct t as [|y t2].
      * simpl in Heq. apply Hne. exact Heq.
      * rewrite join_cons2 in Heq. simpl in Heq.
        exact (append_not_empty _ _ _ Heq).
    + destruct (Hl x (or_introl eq_refl)) as [_ Hx].
      destruct (Hl' x' (or_introl eq_refl)) as [_ Hx'].
      assert (Ht : plain_names t) by (intros n Hn; apply Hl; right; exact Hn).
      assert (Ht' : plain_names t') by (intros n Hn; apply Hl'; right; exact Hn).
      destruct t as [|y t2]; destruct t' as [|y' t2'].
      * simpl in Heq. subst x'. reflexivity.
      * exfalso. rewrite join_cons2 in Heq. simpl in Heq. subst x.
        exact (lacks_append _ _ _ Hx).
      * exfalso. rewrite join_cons2 in Heq. simpl in Heq. subst x'.
        exact (lacks_append _ _ _ Hx').
      * rewrite !join_cons2 in Heq. simpl in Heq.
        destruct (append_sep_inj _ _ _ _ _ Hx Hx' Heq) as [H1 H2]. subst x'.
        f_equal. apply IH; assumption.
Qed.

(** X6. The string that is fingerprinted tells desired states apart when
    the names are plain: if neither user plane name holds a slash and no
    name of a network connection is empty or holds a comma, two equal
    strings come from the same user plane name and the same list of
    network connections. *)
Theorem finger_injective :
  forall up up' ncs ncs',
    lacks "/" up -> lacks "/" up' ->
    plain_names ncs -> plain_names ncs' ->
    finger up ncs = finger up' ncs' ->
    up = up' /\ ncs = ncs'.
Proof.
  intros up up' ncs ncs' Hu Hu' Hn Hn' Heq. unfold finger in Heq. simpl in Heq.
  destruct (append_sep_inj _ _ _ _ _ Hu Hu' Heq) as [H1 H2].
  split; [exact H1|]. apply join_comma_inj; assumption.
Qed.

Lemma finger_injective_witness :
  finger "A" ["nc1"; "nc2"] = finger "A" ["nc1"; "nc2"]
  /\ "A" = "A" /\ ["nc1"; "nc2"] = ["nc1"; "nc2"].
Proof.
  split; [reflexivity|].
  apply (finger_injective "A" "A" ["nc1"; "nc2"] ["nc1"; "nc2"]).
  - intro H. simpl in H. intuition discriminate.
  - intro H. simpl in H. intuition discriminate.
  - intros n [H|[H|[]]]; subst n; (split; [discriminate|]);
      intro H; simpl in H; intuition discriminate.
  - intros n [H|[H|[]]]; subst n; (split; [discriminate|]);
      intro H; simpl in H; intuition discriminate.
  - reflexivity.
Defined.

(** ** str2bool *)

Lemma lower_upper_char : forall c, lower_char (upper_char c) = lower_char c.
Proof.
  intros [[] [] [] [] [] [] [] []]; vm_compute; reflexivity.
Qed.

Lemma lower_lower_char : forall c, lower_char (lower_char c) = lower_char c.
Proof.
  intros [[] [] [] [] [] [] [] []]; vm_compute; reflexivity.
Qed.

Lemma lower_upper : forall s, lower (upper s) = lower s.
Proof.
  induction s as [|c s IH]; simpl; [reflexivity|].
  rewrite lower_upper_char, IH. reflexivity.
Qed.

Lemma lower_lower : forall s, lower (lower s) = lower s.
Proof.
  induction s as [|c s IH]; simpl; [reflexivity|].
  rewrite lower_lower_char, IH. reflexivity.
Qed.

(** X7. [str2bool] does not look at the case of the letters: a string, the
    string in upper case and the string in lower case get the same
    answer. *)
Theorem str2bool_ignores_case :
  forall value,
    str2bool (upper value) = str2bool value
    /\ str2bool (lower value) = str2bool value.
Proof.
  intro value. unfold str2bool. rewrite lower_upper, lower_lower.
  split; reflexivity.
Qed.

Example str2bool_words :
  map str2bool ["Yes"; "TRUE"; "t"; "1"; "Y"; "no"; "on"; "0"; ""; "yes "]
  = [true; true; true; true; true; false; false; false; false; false].
Proof. vm_compute. reflexivity. Qed.

(** ** The lookup of a pin *)

(** X8. The pin that the lookup returns for a shard is the value of the
    first entry of the policy, among those that carry both a name and the
    key of the pin, whose name is the name of the shard; it is none when
    there is no such entry, when that value is null, when the file is
    missing or empty. An entry that lacks one of the two keys is passed
    over, whatever its name. *)
Theorem static_pin_is_first_entry :
  forall config_file shard_name,
    snd (get_static_shard_to_sgup_mapping config_file shard_name)
    = match config_file with
      | Config entries =>
          match find (pins shard_name) entries with
          | Some entry =>
              match e_serviceGatewayUserPlane entry with
              | Some value => value
              | None => None
              end
          | None => None
          end
      | _ => None
      end.
Proof.
  intros [| |entries] shard_name; simpl; try reflexivity.
  induction entries as [|entry rest IH]; simpl; [reflexivity|].
  unfold pins at 1.
  destruct (e_name entry) as [name|].
  - destruct (e_serviceGatewayUserPlane entry) as [value|] eqn:Ev.
    + destruct (String.eqb name shard_name); simpl;
        [rewrite Ev; reflexivity | exact IH].
    + destruct (static_scan rest shard_name) as [ws r]. simpl in *. exact IH.
  - destruct (static_scan rest shard_name) as [ws r]. simpl in *. exact IH.
Qed.

(** ** Which entries of the policy are created *)

Lemma creates_app : forall t1 t2, creates (t1 ++ t2) = creates t1 ++ creates t2.
Proof. intros. apply filter_map_app. Qed.

Lemma creates_warnings : forall t, Forall is_warning t -> creates t = [].
Proof.
  induction t as [|e t IH]; intro H; [reflexivity|].
  inversion H as [|e' t' [w Hw] Ht]; subst. simpl. apply IH. exact Ht.
Qed.

Lemma warnings_create_events : forall t, Forall is_warning t -> Forall create_event t.
Proof.
  intros t H. eapply Forall_impl; [|exact H]. intros e He. left. exact He.
Qed.

Lemma create_events_no_update : forall t, Forall create_event t -> updates t = [].
Proof.
  induction t as [|e t IH]; intro H; [reflexivity|].
  inversion H as [|e' t' He Ht]; subst.
  destruct He as [[w Hw]|[[entry [p Hp]]|[p Hp]]]; subst e; simpl; apply IH; exact Ht.
Qed.

Lemma apply_events_create :
  forall t st,
    Forall create_event t ->
    apply_events st t
    = mkStore (service_gateways st) (service_gateway_user_planes st)
        (shards st ++ map create_shard (creates t))
        (traffic_steering_functions st) (network_connections st).
Proof.
  unfold apply_events.
  induction t as [|e t IH]; intros st Ht.
  - simpl. rewrite app_nil_r. destruct st; reflexivity.
  - inversion Ht as [|e' t' He Ht']; subst. simpl fold_left.
    rewrite IH by exact Ht'.
    destruct He as [[w Hw]|[[entry [p Hp]]|[p Hp]]]; subst e; simpl; try reflexivity.
    rewrite <- app_assoc. reflexivity.
Qed.

Lemma filter_map_none :
  forall (A B : Type) (f : A -> option B) (l : list A),
    (forall x, In x l -> f x = None) -> filter_map f l = [].
Proof.
  intros A B f. induction l as [|x l IH]; intro H; [reflexivity|].
  simpl. rewrite (H x (or_introl eq_refl)). apply IH.
  intros y Hy. apply H. right. exact Hy.
Qed.

Lemma filter_map_In :
  forall (A B : Type) (f : A -> option B) (l : list A) (x : A) (y : B),
    In x l -> f x = Some y -> In y (filter_map f l).
Proof.
  intros A B f. induction l as [|a l IH]; intros x y Hin Hf; [destruct Hin|].
  simpl. destruct Hin as [Ha|Hin].
  - subst a. rewrite Hf. left. reflexivity.
  - destruct (f a); [right|]; eapply IH; eassumption.
Qed.

(** An entry is not materialized again once the names of the materialized
    entries are among the existing ones. *)
Lemma materialized_again :
  forall existing names entries entry,
    In entry entries ->
    materialized (existing ++ filter_map (materialized existing names) entries)
      names entry = None.
Proof.
  intros existing names entries entry Hin.
  pose proof (filter_map_In _ _ (materialized existing names) entries entry) as Hfirst.
  remember (existing ++ filter_map (materialized existing names) entries) as existing2
    eqn:He.
  assert (Hold : forall n, str_in n existing = true -> str_in n existing2 = true).
  { intros n H. apply str_in_In. rewrite He. apply in_or_app. left.
    apply str_in_In. exact H. }
  assert (Hnew : forall n, materialized existing names entry = Some n ->
                           str_in n existing2 = true).
  { intros n H. apply str_in_In. rewrite He. apply in_or_app. right.
    apply (Hfirst n Hin H). }
  clear Hfirst He. unfold materialized in *.
  destruct (e_name entry) as [name|]; [|reflexivity].
  destruct (e_prefixes entry) as [prefixes|]; [|reflexivity].
  destruct (str_in name existing) eqn:Eold.
  - rewrite (Hold name Eold). reflexivity.
  - destruct (is_pinned entry) as [desired_sgup|].
    + destruct (str_in desired_sgup names).
      * rewrite (Hnew name eq_refl). reflexivity.
      * destruct (str_in name existing2); reflexivity.
    + rewrite (Hnew name eq_refl). reflexivity.
Qed.

Section Materialize.

Variable ip_address : string -> option IPAddress.
Variable ip_network_hosts : string -> option (list IPAddress).

Lemma count_sessions_lower_bound :
  forall entry prefixes acc,
    acc <= snd (count_sessions ip_address ip_network_hosts entry prefixes acc).
Proof.
  intros entry. induction prefixes as [|prefix rest IH]; intro acc; simpl; [lia|].
  destruct (hosts_of_prefix ip_address ip_network_hosts entry prefix) as [n|] eqn:E.
  - specialize (IH (acc + n)).
    assert (0 <= n).
    { unfold hosts_of_prefix in E.
      destruct (ip_addresses ip_address (entry_exclude entry)); [|discriminate E].
      destruct (ip_network_hosts prefix); [|discriminate E].
      injection E as E. subst n. lia. }
    lia.
  - specialize (IH acc).
    destruct (count_sessions ip_address ip_network_hosts entry rest acc) as [ws r].
    simpl in *. exact IH.
Qed.

(** One entry: the events are those of a creation, the user planes of the
    store stay, and a shard is created exactly for a materialized entry. *)
Lemma create_default_item_materialized :
  forall virtual_mac existing st fifo entry,
    exists es st' fifo',
      create_default_item ip_address ip_network_hosts virtual_mac existing (st, fifo) entry
      = (es, (st', fifo'))
      /\ Forall create_event es
      /\ sgup_names_of st' = sgup_names_of st
      /\ map c_name (creates es)
         = match materialized existing (sgup_names_of st) entry with
           | Some name => [name]
           | None => []
           end.
Proof.
  intros virtual_mac existing st fifo entry.
  unfold create_default_item, materialized.
  destruct (e_name entry) as [name|];
    [|do 3 eexists; split; [reflexivity|]; split;
      [repeat constructor; eexists; reflexivity | split; reflexivity]].
  destruct (e_prefixes entry) as [prefixes|];
    [|do 3 eexists; split; [reflexivity|]; split;
      [repeat constructor; eexists; reflexivity | split; reflexivity]].
  destruct (str_in name existing);
    [do 3 eexists; split; [reflexivity|]; split; [constructor | split; reflexivity]|].
  pose proof (count_sessions_warnings ip_address ip_network_hosts entry prefixes 0) as Hws.
  destruct (count_sessions ip_address ip_network_hosts entry prefixes 0)
    as [ws max_session_count]. simpl in Hws.
  pose proof (creates_warnings _ Hws) as Hnone.
  apply warnings_create_events in Hws.
  assert (Hev : forall params,
             Forall create_event (ws ++ [EvAddEntry entry params; EvCreateShard params])).
  { intro params. apply Forall_app. split; [exact Hws|].
    constructor; [right; left; do 2 eexists; reflexivity|].
    constructor; [right; right; eexists; reflexivity | constructor]. }
  assert (Hcr : forall params,
             map c_name (creates (ws ++ [EvAddEntry entry params; EvCreateShard params]))
             = [c_name params]).
  { intro params. rewrite creates_app, Hnone. reflexivity. }
  destruct (is_pinned entry) as [desired_sgup|].
  - destruct (str_in desired_sgup (sgup_names_of st)); simpl negb; cbv iota.
    + do 3 eexists. split; [reflexivity|]. split; [apply Hev|].
      split; [reflexivity | apply Hcr].
    + do 3 eexists. split; [reflexivity|]. split.
      * apply Forall_app. split; [exact Hws|].
        constructor; [left; eexists; reflexivity | constructor].
      * split; [reflexivity|]. rewrite creates_app, Hnone. reflexivity.
  - destruct (if (List.length fifo =? 0)%nat then sgup_names_of st else fifo)
      as [|head tail]; cbv zeta;
      (do 3 eexists; split; [reflexivity|]; split; [apply Hev|];
       split; [reflexivity | apply Hcr]).
Qed.

Lemma entry_loop_materialized :
  forall virtual_mac existing entries st fifo,
    Forall create_event
      (fst (entry_loop ip_address ip_network_hosts virtual_mac existing (st, fifo) entries))
    /\ map c_name
         (creates (fst (entry_loop ip_address ip_network_hosts virtual_mac existing
                          (st, fifo) entries)))
       = filter_map (materialized existing (sgup_names_of st)) entries.
Proof.
  intros virtual_mac existing.
  induction entries as [|entry rest IH]; intros st fifo.
  - simpl. split; [constructor | reflexivity].
  - cbn [entry_loop].
    destruct (create_default_item_materialized virtual_mac existing st fifo entry)
      as [es [st' [fifo' [Hitem [Hev [Hnames Hcr]]]]]].
    rewrite Hitem. destruct (IH st' fifo') as [Hev' Hcr'].
    destruct (entry_loop ip_address ip_network_hosts virtual_mac existing
                (st', fifo') rest) as [es' s'']. simpl in *.
    split; [apply Forall_app; split; assumption|].
    rewrite creates_app, map_app, Hcr, Hcr', Hnames.
    destruct (materialized existing (sgup_names_of st) entry); reflexivity.
Qed.

Lemma create_default_items_events :
  forall config_file virtual_mac st,
    Forall create_event
      (fst (create_default_items ip_address ip_network_hosts config_file virtual_mac st)).
Proof.
  intros config_file virtual_mac st. unfold create_default_items.
  destruct config_file as [| |entries]; simpl; try constructor.
  - destruct (List.length (service_gateway_user_planes st) =? 0)%nat; simpl;
      repeat constructor. eexists; reflexivity.
  - destruct (List.length (service_gateway_user_planes st) =? 0)%nat; simpl.
    + repeat constructor. eexists; reflexivity.
    + apply entry_loop_materialized.
Qed.

Lemma created_names :
  forall config_file virtual_mac st,
    map c_name
      (creates (fst (create_default_items ip_address ip_network_hosts config_file
                       virtual_mac st)))
    = match config_file with
      | Config entries =>
          if (List.length (service_gateway_user_planes st) =? 0)%nat then []
          else filter_map
                 (materialized (map shard_name (shards st)) (sgup_names_of st)) entries
      | _ => []
      end.
Proof.
  intros config_file virtual_mac st. unfold create_default_items.
  destruct config_file as [| |entries]; simpl; try reflexivity.
  - destruct (List.length (service_gateway_user_planes st) =? 0)%nat; reflexivity.
  - destruct (List.length (service_gateway_user_planes st) =? 0)%nat; simpl;
      [reflexivity|]. apply entry_loop_materialized.
Qed.

(** X9. One invocation of [create_default_items] creates, in the order of
    the policy, a shard for every entry that has a name and prefixes,
    whose name is not the name of a shard that the store held when the
    invocation began, and whose pin, if it has one, names a user plane of
    the store; it creates nothing else, nothing at all without the file,
    with an empty list of user planes or with an empty file, and it never
    calls [update_shard]. *)
Theorem created_shards_are_materialized_entries :
  forall config_file virtual_mac st,
    map c_name
      (creates (fst (create_default_items ip_address ip_network_hosts config_file
                       virtual_mac st)))
    = match config_file with
      | Config entries =>
          if (List.length (service_gateway_user_planes st) =? 0)%nat then []
          else filter_map
                 (materialized (map shard_name (shards st)) (sgup_names_of st)) entries
      | _ => []
      end
    /\ updates (fst (create_default_items ip_address ip_network_hosts config_file
                       virtual_mac st)) = [].
Proof.
  intros config_file virtual_mac st. split.
  - apply created_names.
  - apply create_events_no_update. apply create_default_items_events.
Qed.

(** X10. A second invocation of [create_default_items], on the store that
    the first one left and with the same policy, creates no shard. *)
Theorem create_default_items_twice :
  forall config_file virtual_mac st,
    creates
      (fst (create_default_items ip_address ip_network_hosts config_file virtual_mac
              (apply_events st
                 (fst (create_default_items ip_address ip_network_hosts config_file
                         virtual_mac st)))))
    = [].
Proof.
  intros config_file virtual_mac st.
  rewrite apply_events_create by apply create_default_items_events.
  set (st1 := mkStore _ _ _ _ _).
  assert (Hnil : forall l : list CreateParams, map c_name l = [] -> l = []).
  { intros [|x l] H; [reflexivity | discriminate H]. }
  apply Hnil. rewrite created_names.
  destruct config_file as [| |entries]; try reflexivity.
  change (service_gateway_user_planes st1) with (service_gateway_user_planes st).
  destruct (List.length (service_gateway_user_planes st) =? 0)%nat eqn:Hlen;
    [reflexivity|].
  apply filter_map_none. intros entry Hin.
  change (sgup_names_of st1) with (sgup_names_of st).
  assert (Hex : map shard_name (shards st1)
                = map shard_name (shards st)
                    ++ filter_map (materialized (map shard_name (shards st))
                                     (sgup_names_of st)) entries).
  { pose proof (created_names (Config entries) virtual_mac st) as H1.
    cbv beta iota in H1. rewrite Hlen in H1.
    unfold st1. simpl shards. rewrite map_app, map_map, <- H1. reflexivity. }
  rewrite Hex. apply materialized_again. exact Hin.
Qed.

End Materialize.

(** ** The shard that is created for an entry *)

Section CreatedShard.

Variable ip_address : string -> option IPAddress.
Variable ip_network_hosts : string -> option (list IPAddress).

Lemma create_default_item_fields :
  forall virtual_mac existing st fifo entry e p,
    In (EvAddEntry e p)
       (fst (create_default_item ip_address ip_network_hosts virtual_mac existing
               (st, fifo) entry)) ->
    e_name e = Some (c_name p)
    /\ c_virtual_mac p = virtual_mac
    /\ c_allocated_session_count p = 0
    /\ 0 <= c_max_session_count p
    /\ ~ In (c_name p) existing
    /\ (forall P, is_pinned e = Some P ->
                  c_desired_service_gateway_user_plane p = Some P
                  /\ In P (sgup_names_of st)).
Proof.
  intros virtual_mac existing st fifo entry e p.
  unfold create_default_item.
  destruct (e_name entry) as [name|] eqn:Hname; [|intros [H|[]]; discriminate H].
  destruct (e_prefixes entry) as [prefixes|]; [|intros [H|[]]; discriminate H].
  destruct (str_in name existing) eqn:Hex; [intros []|].
  apply str_in_false in Hex.
  pose proof (count_sessions_warnings ip_address ip_network_hosts entry prefixes 0) as Hws.
  pose proof (count_sessions_lower_bound ip_address ip_network_hosts entry prefixes 0)
    as Hlow.
  destruct (count_sessions ip_address ip_network_hosts entry prefixes 0)
    as [ws max_session_count]. simpl in Hws, Hlow.
  assert (Hadd : forall params,
             In (EvAddEntry e p) (ws ++ [EvAddEntry entry params; EvCreateShard params]) ->
             e = entry /\ p = params).
  { intros params Hin. apply in_app_or in Hin. destruct Hin as [Hin|Hin].
    - exfalso. exact (warning_not_add_entry _ _ _ Hws Hin).
    - destruct Hin as [H|[H|[]]]; [|discriminate H].
      injection H as He Hp. split; congruence. }
  destruct (is_pinned entry) as [desired_sgup|] eqn:Hpin.
  - destruct (str_in desired_sgup (sgup_names_of st)) eqn:Hknown; simpl negb; cbv iota.
    + cbv zeta. simpl fst. intro Hin. destruct (Hadd _ Hin) as [He Hp]. subst e p.
      simpl. split; [exact Hname|]. split; [reflexivity|]. split; [reflexivity|].
      split; [exact Hlow|]. split; [exact Hex|].
      intros P HP. rewrite HP in Hpin. injection Hpin as Hpin. subst P.
      split; [reflexivity | apply str_in_In; exact Hknown].
    + simpl fst. intro Hin. apply in_app_or in Hin. destruct Hin as [Hin|[H|[]]].
      * exfalso. exact (warning_not_add_entry _ _ _ Hws Hin).
      * discriminate H.
  - destruct (if (List.length fifo =? 0)%nat then sgup_names_of st else fifo)
      as [|head tail]; cbv zeta; simpl fst; intro Hin;
      destruct (Hadd _ Hin) as [He Hp]; subst e p; simpl;
      (split; [exact Hname|]; split; [reflexivity|]; split; [reflexivity|];
       split; [exact Hlow|]; split; [exact Hex|];
       intros P HP; rewrite HP in Hpin; discriminate Hpin).
Qed.

Lemma entry_loop_fields :
  forall virtual_mac existing entries st fifo e p,
    In (EvAddEntry e p)
       (fst (entry_loop ip_address ip_network_hosts virtual_mac existing (st, fifo)
               entries)) ->
    e_name e = Some (c_name p)
    /\ c_virtual_mac p = virtual_mac
    /\ c_allocated_session_count p = 0
    /\ 0 <= c_max_session_count p
    /\ ~ In (c_name p) existing
    /\ (forall P, is_pinned e = Some P ->
                  c_desired_service_gateway_user_plane p = Some P
                  /\ In P (sgup_names_of st)).
Proof.
  intros virtual_mac existing.
  induction entries as [|entry rest IH]; intros st fifo e p.
  - simpl. intros [].
  - cbn [entry_loop].
    pose proof (create_default_item_fields virtual_mac existing st fifo entry e p)
      as Hitem.
    destruct (create_default_item_materialized ip_address ip_network_hosts
                virtual_mac existing st fifo entry)
      as [es [st' [fifo' [Heq [_ [Hnames _]]]]]].
    rewrite Heq in Hitem |- *.
    specialize (IH st' fifo' e p). rewrite Hnames in IH.
    destruct (entry_loop ip_address ip_network_hosts virtual_mac existing
                (st', fifo') rest) as [es' s'']. simpl in *.
    intro Hin. apply in_app_or in Hin. destruct Hin as [Hin|Hin].
    + apply Hitem. exact Hin.
    + apply IH. exact Hin.
Qed.

(** X11. A shard that [create_default_items] creates for an entry bears the
    name of the entry, which no shard of the store bore when the invocation
    began, the virtual MAC of the configuration, no allocated session and a
    [max_session_count] that is not negative; if the entry has a pin, the
    shard is bound to it, and the pin names a user plane of the store. *)
Theorem created_shard_fields :
  forall config_file virtual_mac st entry p,
    In (EvAddEntry entry p)
       (fst (create_default_items ip_address ip_network_hosts config_file virtual_mac st)) ->
    e_name entry = Some (c_name p)
    /\ c_virtual_mac p = virtual_mac
    /\ c_allocated_session_count p = 0
    /\ 0 <= c_max_session_count p
    /\ ~ In (c_name p) (map shard_name (shards st))
    /\ (forall P, is_pinned entry = Some P ->
                  c_desired_service_gateway_user_plane p = Some P
                  /\ In P (map sgup_name (service_gateway_user_planes st))).
Proof.
  intros config_file virtual_mac st entry p. unfold create_default_items.
  destruct config_file as [| |entries]; simpl; try (intros []).
  - destruct (List.length (service_gateway_user_planes st) =? 0)%nat; simpl.
    + intros [H|[]]. discriminate H.
    + intros [].
  - destruct (List.length (service_gateway_user_planes st) =? 0)%nat; simpl.
    + intros [H|[]]. discriminate H.
    + apply entry_loop_fields.
Qed.

(** X12. If one exclusion of an entry does not parse as an address, the
    shard created for the entry has [max_session_count = 0], whatever its
    prefixes are. *)
Theorem bad_exclude_zero_capacity :
  forall config_file virtual_mac st entry p,
    In (EvAddEntry entry p)
       (fst (create_default_items ip_address ip_network_hosts config_file virtual_mac st)) ->
    ip_addresses ip_address (entry_exclude entry) = None ->
    c_max_session_count p = 0.
Proof.
  intros config_file virtual_mac st entry p Hin Hbad.
  unfold create_default_items in Hin.
  destruct config_file as [| |entries]; simpl in Hin; try contradiction.
  - destruct (List.length (service_gateway_user_planes st) =? 0)%nat; simpl in Hin.
    + destruct Hin as [H|[]]. discriminate H.
    + contradiction.
  - destruct (List.length (service_gateway_user_planes st) =? 0)%nat; simpl in Hin.
    + destruct Hin as [H|[]]. discriminate H.
    + destruct (entry_loop_add_entry _ _ _ _ _ _ _ _ Hin) as [prefixes [_ [_ Hm]]].
      rewrite Hm, (count_sessions_bad_exclude _ _ _ Hbad). reflexivity.
Qed.

End CreatedShard.

Lemma created_shard_fields_witness :
  In (EvAddEntry entry_s created_s)
     (fst (create_default_items IPv4.ip_address IPv4.ip_network_hosts
             (Config [entry_s]) "00:00:01:00:00:00" one_plane))
  /\ e_name entry_s = Some (c_name created_s)
  /\ 0 <= c_max_session_count created_s.
Proof.
  assert (Hin : In (EvAddEntry entry_s created_s)
                   (fst (create_default_items IPv4.ip_address IPv4.ip_network_hosts
                           (Config [entry_s]) "00:00:01:00:00:00" one_plane)))
    by (vm_compute; left; reflexivity).
  split; [exact Hin|].
  destruct (created_shard_fields IPv4.ip_address IPv4.ip_network_hosts _ _ _ _ _ Hin)
    as [H1 [_ [_ [H4 _]]]].
  split; [exact H1 | exact H4].
Defined.

Lemma bad_exclude_zero_capacity_witness :
  In (EvAddEntry entry_bad_exclude
        (mkCreate "s" "00:00:01:00:00:00" 0 0 ["10.0.0.0/30"; "10.0.1.0/30"] (Some "A")))
     (fst (create_default_items IPv4.ip_address IPv4.ip_network_hosts
             (Config [entry_bad_exclude]) "00:00:01:00:00:00" one_plane))
  /\ ip_addresses IPv4.ip_address (entry_exclude entry_bad_exclude) = None
  /\ c_max_session_count
       (mkCreate "s" "00:00:01:00:00:00" 0 0 ["10.0.0.0/30"; "10.0.1.0/30"] (Some "A"))
     = 0.
Proof.
  assert (Hin : In (EvAddEntry entry_bad_exclude
                      (mkCreate "s" "00:00:01:00:00:00" 0 0
                         ["10.0.0.0/30"; "10.0.1.0/30"] (Some "A")))
                   (fst (create_default_items IPv4.ip_address IPv4.ip_network_hosts
                           (Config [entry_bad_exclude]) "00:00:01:00:00:00" one_plane))).
  { vm_compute. right. right. left. reflexivity. }
  assert (Hbad : ip_addresses IPv4.ip_address (entry_exclude entry_bad_exclude) = None)
    by (vm_compute; reflexivity).
  split; [exact Hin|]. split; [exact Hbad|].
  exact (bad_exclude_zero_capacity IPv4.ip_address IPv4.ip_network_hosts _ _ _ _ _
           Hin Hbad).
Defined.

(** ** Sweep after sweep *)

Lemma apply_events_silent :
  forall t st, Forall sweep_event t -> updates t = [] -> apply_events st t = st.
Proof.
  intros t st Ht Hnone. rewrite apply_events_sweep by exact Ht. rewrite Hnone.
  assert (Hid : map (apply_updates []) (shards st) = shards st).
  { rewrite <- (map_id (shards st)) at 2. apply map_ext. reflexivity. }
  rewrite Hid. destruct st; reflexivity.
Qed.

(** The sweep that follows a sweep, in a snapshot with user planes. *)
Lemma sweep_after_sweep_silent {order : SetOrder} :
  forall config_file st,
    service_gateway_user_planes st <> [] ->
    NoDup (map shard_name (shards st)) ->
    updates (fst (map_shards config_file (after_map_shards config_file st))) = [].
Proof.
  intros config_file st Hsgups Hnd.
  unfold after_map_shards.
  rewrite apply_events_sweep by apply map_shards_sweep_events.
  change (mkStore (service_gateways st) (service_gateway_user_planes st)
            (map (apply_updates (updates (fst (map_shards config_file st)))) (shards st))
            (traffic_steering_functions st) (network_connections st))
    with (with_shards st
            (map (apply_updates (updates (fst (map_shards config_file st)))) (shards st))).
  rewrite map_shards_with_shards by exact Hsgups.
  assert (Hfirst : map_shards config_file st
                   = shard_loop
                       (map_shard config_file st (map sg_name (service_gateways st))
                          (map sgup_name (service_gateway_user_planes st))
                          (traffic_steering_functions st) (network_connections st))
                       (shards st)).
  { rewrite <- (map_shards_with_shards config_file st (shards st) Hsgups).
    unfold with_shards. destruct st; reflexivity. }
  rewrite Hfirst.
  apply shard_loop_idempotent.
  - intros shard p. apply map_shard_update_names.
  - intro shard. apply map_shard_idempotent.
  - intro shard. apply map_shard_stop_no_update.
  - exact Hnd.
Qed.

(** X13. In a snapshot with user planes and shards of distinct names, the
    store that a sweep leaves is a fixed point: a further sweep leaves
    the same store. *)
Theorem sweep_fixed_point {order : SetOrder} :
  forall config_file st,
    service_gateway_user_planes st <> [] ->
    NoDup (map shard_name (shards st)) ->
    after_map_shards config_file (after_map_shards config_file st)
    = after_map_shards config_file st.
Proof.
  intros config_file st Hsgups Hnd.
  unfold after_map_shards at 1.
  apply apply_events_silent.
  - apply map_shards_sweep_events.
  - apply sweep_after_sweep_silent; assumption.
Qed.

Lemma sweep_fixed_point_witness :
  shards (after_map_shards (order := insertion_order) pin_s_to_A
            (after_map_shards (order := insertion_order) pin_s_to_A store_two_shards))
  = shards (after_map_shards (order := insertion_order) pin_s_to_A store_two_shards).
Proof.
  refine (f_equal shards (sweep_fixed_point pin_s_to_A store_two_shards _ _)).
  - discriminate.
  - simpl. repeat constructor; simpl; intuition discriminate.
Defined.

(** ** The items of the watch *)

Lemma on_item_triggers {order : SetOrder} :
  forall config_file st item,
    on_item config_file st item
    = if triggers item then fst (map_shards config_file st) else [].
Proof.
  intros config_file st item. unfold on_item, triggers.
  destruct (negb (String.eqb (item_service_gateway_user_plane item) ""));
    [reflexivity|].
  destruct (negb (String.eqb (item_traffic_steering_function item) ""));
    [reflexivity|].
  destruct (negb (String.eqb (item_network_connection item) "")); reflexivity.
Qed.

(** Over a store that a sweep does not write, no item leads to a write. *)
Lemma run_items_silent {order : SetOrder} :
  forall config_file items st,
    updates (fst (map_shards config_file st)) = [] ->
    updates (run_items config_file st items) = [].
Proof.
  intros config_file. induction items as [|item rest IH]; intros st Hnone.
  - reflexivity.
  - cbn [run_items]. rewrite on_item_triggers.
    destruct (triggers item).
    + rewrite updates_app, Hnone.
      rewrite apply_events_silent;
        [apply IH; exact Hnone | apply map_shards_sweep_events | exact Hnone].
    + simpl. apply IH. exact Hnone.
Qed.

(** X14. Over a store with user planes and shards of distinct names that
    nothing else writes, the items of the watch lead to the updates of one
    sweep, issued at the first item that carries a name of one of the four
    kinds; the sweeps of the later items write nothing, and items that
    carry no name lead to no sweep. *)
Theorem run_items_writes_once {order : SetOrder} :
  forall config_file st items,
    service_gateway_user_planes st <> [] ->
    NoDup (map shard_name (shards st)) ->
    updates (run_items config_file st items)
    = if existsb triggers items then updates (fst (map_shards config_file st)) else [].
Proof.
  intros config_file st items Hsgups Hnd.
  induction items as [|item rest IH].
  - reflexivity.
  - cbn [run_items existsb]. rewrite on_item_triggers.
    destruct (triggers item); simpl orb.
    + rewrite updates_app.
      change (apply_events st (fst (map_shards config_file st)))
        with (after_map_shards config_file st).
      rewrite run_items_silent; [apply app_nil_r|].
      apply sweep_after_sweep_silent; assumption.
    + simpl. exact IH.
Qed.

Lemma run_items_writes_once_witness :
  updates (run_items (order := insertion_order) pin_s_to_A store_two_shards
             [mkItem "" "" "" ""; mkItem "" "t1" "" ""; mkItem "A" "" "" "";
              mkItem "" "" "" "s"])
  = updates (fst (map_shards (order := insertion_order) pin_s_to_A store_two_shards)).
Proof.
  refine (run_items_writes_once pin_s_to_A store_two_shards
            [mkItem "" "" "" ""; mkItem "" "t1" "" ""; mkItem "A" "" "" "";
             mkItem "" "" "" "s"] _ _).
  - discriminate.
  - simpl. repeat constructor; simpl; intuition discriminate.
Defined.

(** ** The reset without user planes, sweep after sweep *)

Lemma reset_keeps :
  forall us h h',
    same_reset h h' ->
    (forall p, In p us -> u_name p = shard_name h -> p = reset_params h) ->
    same_reset h (apply_updates us h').
Proof.
  unfold apply_updates.
  induction us as [|p us IH]; intros h h' Hsame Hus; simpl; [exact Hsame|].
  apply IH.
  - destruct Hsame as [Hn [Hp Hd]]. unfold update_shard.
    destruct (String.eqb (shard_name h') (u_name p)) eqn:E.
    + apply String.eqb_eq in E.
      assert (Hreset : p = reset_params h).
      { apply Hus; [left; reflexivity|]. rewrite <- E. exact Hn. }
      subst p. unfold same_reset. simpl. repeat split; assumption.
    + unfold same_reset. repeat split; assumption.
  - intros q Hq. apply Hus. right. exact Hq.
Qed.

Lemma reset_updates_same :
  forall (F : Shard -> Shard) l,
    (forall h, In h l -> same_reset h (F h)) ->
    map reset_params (filter has_desired_sgup (map F l))
    = map reset_params (filter has_desired_sgup l).
Proof.
  intros F. induction l as [|h l IH]; intro H; [reflexivity|].
  simpl. destruct (H h (or_introl eq_refl)) as [Hn [Hp Hd]].
  assert (IH' : map reset_params (filter has_desired_sgup (map F l))
                = map reset_params (filter has_desired_sgup l)).
  { apply IH. intros x Hx. apply H. right. exact Hx. }
  assert (Hh : has_desired_sgup (F h) = has_desired_sgup h)
    by (unfold has_desired_sgup; rewrite Hd; reflexivity).
  rewrite Hh. destruct (has_desired_sgup h); [|exact IH'].
  simpl. rewrite IH'. f_equal. unfold reset_params. rewrite Hn, Hp. reflexivity.
Qed.

(** X15. Without user planes and with shards of distinct names, the sweep
    that follows a sweep issues the same updates again: the reset passes
    no desired user plane, so the shards it was issued for still have one. *)
Theorem reset_is_issued_again {order : SetOrder} :
  forall config_file st,
    service_gateway_user_planes st = [] ->
    NoDup (map shard_name (shards st)) ->
    updates (fst (map_shards config_file (after_map_shards config_file st)))
    = updates (fst (map_shards config_file st)).
Proof.
  intros config_file st Hnone Hnd.
  unfold after_map_shards.
  rewrite apply_events_sweep by apply map_shards_sweep_events.
  unfold map_shards. simpl service_gateway_user_planes. rewrite Hnone.
  simpl. change (updates
                   (map (fun shard => EvUpdateShard (reset_params shard))
                      (filter has_desired_sgup
                         (map (apply_updates
                                 (updates
                                    (map (fun shard => EvUpdateShard (reset_params shard))
                                       (filter has_desired_sgup (shards st)))))
                            (shards st))))
                 = updates
                     (map (fun shard => EvUpdateShard (reset_params shard))
                        (filter has_desired_sgup (shards st)))).
  rewrite !updates_reset.
  apply reset_updates_same. intros h Hin.
  apply reset_keeps.
  - unfold same_reset. repeat split.
  - intros p Hp Hname. apply in_map_iff in Hp. destruct Hp as [h' [Hp Hin']].
    apply filter_In in Hin'. destruct Hin' as [Hin' _]. subst p.
    simpl in Hname.
    rewrite (NoDup_map_eq _ _ shard_name (shards st) h' h Hnd Hin' Hin Hname).
    reflexivity.
Qed.

Lemma reset_is_issued_again_witness :
  updates
    (fst (map_shards (order := insertion_order) NoFile
            (after_map_shards (order := insertion_order) NoFile empty_fleet)))
  = updates (fst (map_shards (order := insertion_order) NoFile empty_fleet)).
Proof.
  refine (reset_is_issued_again NoFile empty_fleet eq_refl _).
  simpl. repeat constructor; simpl; intuition discriminate.
Defined.

(** ** The user plane that a sweep writes for a shard *)

(** An update of a sweep, traced back to the decision for its shard. *)
Lemma sweep_update_decision {order : SetOrder} :
  forall config_file st shard p,
    service_gateway_user_planes st <> [] ->
    NoDup (map shard_name (shards st)) ->
    In shard (shards st) ->
    In p (updates (fst (map_shards config_file st))) ->
    u_name p = shard_name shard ->
    exists d,
      decision config_file st (map sg_name (service_gateways st))
        (map sgup_name (service_gateway_user_planes st))
        (traffic_steering_functions st) (network_connections st) shard = Some d
      /\ p = update_params shard (fst d) (snd d).
Proof.
  intros config_file st shard p Hsgups Hnd Hin Hp Hname.
  unfold map_shards in Hp.
  destruct (service_gateway_user_planes st) as [|u0 us] eqn:Hus;
    [exfalso; apply Hsgups; reflexivity|].
  simpl Nat.eqb in Hp. cbv iota in Hp. rewrite <- Hus in *.
  destruct (shard_loop_update_source _ _ _ Hp) as [shard' [Hs' Hp']].
  assert (Hsame : shard' = shard).
  { apply (NoDup_map_eq _ _ shard_name (shards st)); try assumption.
    rewrite <- Hname. symmetry. eapply map_shard_update_names. exact Hp'. }
  subst shard'. rewrite map_shard_updates in Hp'.
  destruct (fp_active shard) as [fa|]; [|destruct Hp'].
  destruct (decision config_file st (map sg_name (service_gateways st))
              (map sgup_name (service_gateway_user_planes st))
              (traffic_steering_functions st) (network_connections st) shard)
    as [d|]; [|destruct Hp'].
  destruct (fp_desired d) as [fd|]; [|destruct Hp'].
  destruct (String.eqb fd fa); [destruct Hp'|].
  destruct Hp' as [Hp'|[]]. exists d. split; [reflexivity | symmetry; exact Hp'].
Qed.

(** X16. A sweep does not move a shard: for a shard without pin whose
    stored desired user plane is a user plane of the snapshot, an update
    of the sweep names that same user plane as desired, whatever the loads
    are. *)
Theorem bound_shard_is_not_moved {order : SetOrder} :
  forall config_file st shard p,
    NoDup (map shard_name (shards st)) ->
    In shard (shards st) ->
    snd (get_static_shard_to_sgup_mapping config_file (shard_name shard)) = None ->
    In (shard_desired_sgup shard) (map sgup_name (service_gateway_user_planes st)) ->
    In p (updates (fst (map_shards config_file st))) ->
    u_name p = shard_name shard ->
    u_desired_service_gateway_user_plane p = Some (shard_desired_sgup shard).
Proof.
  intros config_file st shard p Hnd Hin Hpin Hknown Hp Hname.
  assert (Hsgups : service_gateway_user_planes st <> []).
  { intro H. rewrite H in Hknown. destruct Hknown. }
  destruct (sweep_update_decision _ _ _ _ Hsgups Hnd Hin Hp Hname) as [d [Hd Hpd]].
  subst p. simpl. f_equal.
  unfold decision in Hd. rewrite Hpin in Hd.
  unfold select_sgup, need_mapping in Hd.
  apply str_in_In in Hknown. rewrite Hknown in Hd. simpl in Hd.
  destruct (get_service_gateway_user_plane st (shard_desired_sgup shard)) as [u|] eqn:Hget;
    [|discriminate Hd].
  injection Hd as Hd. subst d. simpl. apply (get_sgup_some _ _ _ Hget).
Qed.

Lemma bound_shard_is_not_moved_witness :
  In (mkUpdate "s" (Some "B") (Some ["nc-b"]) (Some [("t1", "nc-b")])
        (Some ["internet"]) (Some ["10.0.0.0/24"]) (Some "replace"))
     (updates (fst (map_shards (order := insertion_order) NoFile store_two_shards)))
  /\ u_desired_service_gateway_user_plane
       (mkUpdate "s" (Some "B") (Some ["nc-b"]) (Some [("t1", "nc-b")])
          (Some ["internet"]) (Some ["10.0.0.0/24"]) (Some "replace"))
     = Some (shard_desired_sgup (sample_shard "s" "B" [])).
Proof.
  assert (Hin : In (mkUpdate "s" (Some "B") (Some ["nc-b"]) (Some [("t1", "nc-b")])
                      (Some ["internet"]) (Some ["10.0.0.0/24"]) (Some "replace"))
                   (updates (fst (map_shards (order := insertion_order) NoFile store_two_shards))))
    by (vm_compute; left; reflexivity).
  split; [exact Hin|].
  apply (bound_shard_is_not_moved (order := insertion_order) NoFile store_two_shards
           (sample_shard "s" "B" [])).
  - simpl. repeat constructor; simpl; intuition discriminate.
  - left. reflexivity.
  - reflexivity.
  - simpl. right. left. reflexivity.
  - exact Hin.
  - reflexivity.
Defined.

